(** * SuperCombo: the generate / filter / score / rank pipeline of
      [netlify/functions/agent.js]

    A shallow embedding of the functions of [agent.js] and the properties
    of its natural-language specification.

    Conventions of the model.
    - JavaScript strings are [string]s; [toLowerCase] acts on the ASCII
      letters and leaves every other code unit as it is (such a unit is
      removed by the normalising regular expression anyway).
    - JavaScript numbers are exact rationals ([Q]) extended with [NaN] and
      the two infinities; [Math.round] is [floor (x + 1/2)].
    - JavaScript objects used as dictionaries are [gmap]s keyed by strings;
      the [Set] of [generateCombinations], whose iteration order is
      insertion order, is a duplicate-free list. *)

From Stdlib Require Import ZArith QArith Qround Qminmax Lia Lqa List String Ascii Bool.
From Stdlib Require Import Permutation Sorted.
From stdpp Require Import gmap strings list.

Set Warnings "-register-all".

Local Open Scope string_scope.
Local Open Scope list_scope.

(** ** Strings *)

Module Str.

Definition between (lo hi c : ascii) : bool :=
  (nat_of_ascii lo <=? nat_of_ascii c)%nat && (nat_of_ascii c <=? nat_of_ascii hi)%nat.

Definition is_upper (c : ascii) : bool := between "A" "Z" c.
Definition is_lower (c : ascii) : bool := between "a" "z" c.
Definition is_digit (c : ascii) : bool := between "0" "9" c.

Definition lower_ascii (c : ascii) : ascii :=
  if is_upper c then ascii_of_nat (nat_of_ascii c + 32) else c.

(** [s.toLowerCase()] *)
Fixpoint toLowerCase (s : string) : string :=
  match s with
  | EmptyString => EmptyString
  | String c s' => String (lower_ascii c) (toLowerCase s')
  end.

(** [s.replace(/[^...]/g, '')] for a character class [keep]. *)
Fixpoint keep_chars (keep : ascii -> bool) (s : string) : string :=
  match s with
  | EmptyString => EmptyString
  | String c s' => if keep c then String c (keep_chars keep s') else keep_chars keep s'
  end.

(** [s.startsWith(p)] *)
Fixpoint startsWith (p s : string) : bool :=
  match p, s with
  | EmptyString, _ => true
  | String _ _, EmptyString => false
  | String a p', String b s' => if ascii_dec a b then startsWith p' s' else false
  end.

(** Some suffix of [s] (the string from some index on) satisfies [P]: the
    way a regular expression without anchors, or [includes], searches. *)
Fixpoint somewhere (P : string -> bool) (s : string) : bool :=
  P s || match s with
         | EmptyString => false
         | String _ s' => somewhere P s'
         end.

(** [s.includes(p)] *)
Definition includes (s p : string) : bool := somewhere (startsWith p) s.

(** [s] begins with [n] characters of the class [p]. *)
Fixpoint run_of (p : ascii -> bool) (n : nat) (s : string) : bool :=
  match n with
  | O => true
  | S n' => match s with
            | EmptyString => false
            | String c s' => p c && run_of p n' s'
            end
  end.

(** [s.replace(p, '')] with a string pattern: the first occurrence of [p]
    is removed, and only that one. *)
Fixpoint remove_first (p s : string) : string :=
  if startsWith p s then substring (String.length p) (String.length s - String.length p) s
  else match s with
       | EmptyString => EmptyString
       | String c s' => String c (remove_first p s')
       end.

(** Every character of [s] is in the class [P]. *)
Fixpoint all_chars (P : ascii -> bool) (s : string) : bool :=
  match s with
  | EmptyString => true
  | String c s' => P c && all_chars P s'
  end.

(** [s.slice(0, n)] for [0 <= n]. *)
Definition slice0 (n : nat) (s : string) : string := substring 0 n s.

End Str.

(** ** Template expander and constraint filter *)

(** The five-way alternative of the constant [UGLY_CLUSTERS]
    [/([bcdfghjklmnpqrstvwxz]{4,})|([aeiou]{4,})|(xx|zz|qq|ww|vv)/i]. *)
Definition char_in (class : string) (c : ascii) : bool :=
  Str.includes class (String (Str.lower_ascii c) EmptyString).

Definition is_consonant : ascii -> bool := char_in "bcdfghjklmnpqrstvwxz".
Definition is_vowel : ascii -> bool := char_in "aeiou".

Definition doubled (s : string) : bool :=
  match s with
  | String a (String b _) =>
      char_in "xzqwv" a && if ascii_dec (Str.lower_ascii a) (Str.lower_ascii b) then true else false
  | _ => false
  end.

Definition UGLY_CLUSTERS (s : string) : bool :=
  Str.somewhere
    (fun t => Str.run_of is_consonant 4 t || Str.run_of is_vowel 4 t || doubled t) s.

(** A raw or filtered candidate [{ domain, template, sources }]. *)
Record candidate : Type := Candidate {
  domain : string;
  template : string;
  sources : string
}.

#[global] Instance candidate_eq_dec : EqDecision candidate.
Proof. solve_decision. Defined.

Section ApplyTemplate.

Variables (A B C prefixes suffixes : list string).

(** [applyTemplate]: the [switch] over the six known templates; the nested
    [for ... of] loops are the list monad. An unknown template gives []. *)
Definition applyTemplate (template : string) : list candidate :=
  if String.eqb template "A+B" then
    a ← A; b ← B;
    [Candidate (a ++ b) "A+B" ("A:" ++ a ++ ", B:" ++ b)]
  else if String.eqb template "B+A" then
    b ← B; a ← A;
    [Candidate (b ++ a) "B+A" ("B:" ++ b ++ ", A:" ++ a)]
  else if String.eqb template "A+B+C" then
    a ← A; b ← B; c ← C;
    [Candidate (a ++ b ++ c) "A+B+C" ("A:" ++ a ++ ", B:" ++ b ++ ", C:" ++ c)]
  else if String.eqb template "prefix+A+B" then
    p ← prefixes; a ← A; b ← B;
    [Candidate (p ++ a ++ b) "prefix+A+B" ("pre:" ++ p ++ ", A:" ++ a ++ ", B:" ++ b)]
  else if String.eqb template "A+B+suffix" then
    a ← A; b ← B; s ← suffixes;
    [Candidate (a ++ b ++ s) "A+B+suffix" ("A:" ++ a ++ ", B:" ++ b ++ ", suf:" ++ s)]
  else if String.eqb template "prefix+A+B+suffix" then
    p ← prefixes; a ← A; b ← B; s ← suffixes;
    [Candidate (p ++ a ++ b ++ s) "prefix+A+B+suffix"
       ("pre:" ++ p ++ ", A:" ++ a ++ ", B:" ++ b ++ ", suf:" ++ s)]
  else [].

End ApplyTemplate.

(** The caller's [packs], [multipliers] and [constraints] objects: a field
    is [None] when the property is absent. *)
Record packs : Type := Packs {
  pack_A : option (list string);
  pack_B : option (list string);
  pack_C : option (list string)
}.

Record multipliers : Type := Multipliers {
  mult_prefixes : option (list string);
  mult_suffixes : option (list string)
}.

Record constraints : Type := Constraints {
  c_maxLen : option Z;
  c_noHyphens : option bool;
  c_noNumbers : option bool;
  c_banned : option (list string);
  c_avoidUglyClusters : option bool
}.

(** [o?.f !== false] *)
Definition not_false {T} (o : option T) (f : T -> option bool) : bool :=
  match o ≫= f with
  | Some false => false
  | _ => true
  end.

(** [constraints?.maxLen || 12]: an absent or zero bound is 12. *)
Definition maxLen_of (cs : option constraints) : Z :=
  match cs ≫= c_maxLen with
  | Some n => if Z.eqb n 0 then 12 else n
  | None => 12
  end.

Definition noHyphens_of (cs : option constraints) : bool := not_false cs c_noHyphens.
Definition noNumbers_of (cs : option constraints) : bool := not_false cs c_noNumbers.
Definition avoidUglyClusters_of (cs : option constraints) : bool :=
  not_false cs c_avoidUglyClusters.
Definition banned_of (cs : option constraints) : list string :=
  default [] (cs ≫= c_banned).

(** [domain.toLowerCase().replace(/[^a-z0-9-]/g, '')] *)
Definition in_domain_class (c : ascii) : bool :=
  Str.is_lower c || Str.is_digit c || if ascii_dec c "-" then true else false.

Definition normalize (d : string) : string :=
  Str.keep_chars in_domain_class (Str.toLowerCase d).

(** The loop over [banned]: [b && normalized.includes(b.toLowerCase())]. *)
Definition isBanned (banned : list string) (normalized : string) : bool :=
  existsb (fun b => negb (String.eqb b "") && Str.includes normalized (Str.toLowerCase b)) banned.

(** [results.add(x)] on a [Set] in insertion order. *)
Definition set_add (x : candidate) (s : list candidate) : list candidate :=
  if decide (x ∈ s) then s else s ++ [x].

(** The body of the second loop of [generateCombinations]: [None] is
    [continue]. *)
Definition keep_candidate (cs : option constraints) (c : candidate) : option candidate :=
  let normalized := normalize (domain c) in
  if String.eqb normalized "" then None
  else if (maxLen_of cs <? Z.of_nat (String.length normalized))%Z then None
  else if noHyphens_of cs && Str.includes normalized "-" then None
  else if noNumbers_of cs && Str.somewhere (fun t => Str.run_of Str.is_digit 1 t) normalized then None
  else if avoidUglyClusters_of cs && UGLY_CLUSTERS normalized then None
  else if isBanned (banned_of cs) normalized then None
  else Some (Candidate normalized (template c) (sources c)).

(** The [Set] of serialised raw candidates after the first loop.
    [JSON.stringify] is injective on [{domain, template, sources}] objects
    and [JSON.parse] inverts it, so the set of strings is the set of
    candidates themselves. *)
Definition raw_set (p : option packs) (m : option multipliers)
    (templates : option (list string)) : list candidate :=
  let A := default [] (p ≫= pack_A) in
  let B := default [] (p ≫= pack_B) in
  let C := default [] (p ≫= pack_C) in
  let prefixes := default [] (m ≫= mult_prefixes) in
  let suffixes := default [] (m ≫= mult_suffixes) in
  fold_left
    (fun results template =>
       fold_left (fun results combo => set_add combo results)
                 (applyTemplate A B C prefixes suffixes template) results)
    (default ["A+B"] templates) [].

Definition generateCombinations (p : option packs) (m : option multipliers)
    (templates : option (list string)) (cs : option constraints) : list candidate :=
  omap (keep_candidate cs) (raw_set p m templates).

(** ** JavaScript numbers and loosely typed oracle values *)

Inductive jsnum : Type :=
| NaN
| PosInf
| NegInf
| Fin (q : Q).

(** A value read from the oracle's JSON (or [undefined] for an absent
    property). An object's own contents never matter where such a value is
    used, so [JObj] carries none. *)
Inductive jsval : Type :=
| JUndefined
| JNull
| JBool (b : bool)
| JNum (x : jsnum)
| JStr (s : string)
| JArr (l : list jsval)
| JObj.

Module Num.

Local Open Scope Q_scope.

Definition is_space (c : ascii) : bool :=
  let n := nat_of_ascii c in
  ((9 <=? n) && (n <=? 13) || (n =? 32))%nat.

Fixpoint skip_space (s : string) : string :=
  match s with
  | String c s' => if is_space c then skip_space s' else s
  | EmptyString => s
  end.

(** The longest run of decimal digits at the head of [s]: its value on top
    of [acc], how many digits there were, and what follows. *)
Fixpoint digits (s : string) (acc : Z) (count : nat) : Z * nat * string :=
  match s with
  | String c s' =>
      if Str.is_digit c
      then digits s' (10 * acc + Z.of_nat (nat_of_ascii c - 48))%Z (S count)
      else (acc, count, s)
  | EmptyString => (acc, count, s)
  end.

(** An optional sign: its factor and the rest. *)
Definition sign (s : string) : Z * string :=
  match s with
  | String "-" s' => ((-1)%Z, s')
  | String "+" s' => (1%Z, s')
  | _ => (1%Z, s)
  end.

(** An optional exponent part [e[+-]ddd]; it counts only with a digit. *)
Definition exponent (s : string) : Z :=
  match s with
  | String c s' =>
      if (if ascii_dec c "e" then true else if ascii_dec c "E" then true else false) then
        let '(sg, r) := sign s' in
        let '(e, n, _) := digits r 0 0 in
        match n with O => 0%Z | _ => (sg * e)%Z end
      else 0%Z
  | EmptyString => 0%Z
  end.

(** [parseFloat] on a string: leading white space, then the longest prefix
    that is a decimal literal. *)
Definition parseFloat_string (s : string) : jsnum :=
  let '(sg, r) := sign (skip_space s) in
  if Str.startsWith "Infinity" r then (if (sg <? 0)%Z then NegInf else PosInf)
  else
    let '(ip, n1, r1) := digits r 0 0 in
    let '(fp, n2, r2) :=
      match r1 with
      | String "." r1' => digits r1' 0 0
      | _ => (0%Z, O, r1)
      end in
    match (n1 + n2)%nat with
    | O => NaN
    | _ => Fin (inject_Z sg * (inject_Z ip + inject_Z fp / inject_Z (10 ^ Z.of_nat n2))
                * Qpower 10 (exponent r2))
    end.

(** [parseFloat(v)]: [v] is converted to a string first. A number prints
    and reads back as itself; [undefined], [null], booleans and objects
    print as words that are no literal; an array prints as its elements
    joined by commas, so it reads as its first element does. *)
Fixpoint parseFloat (v : jsval) : jsnum :=
  match v with
  | JNum x => x
  | JStr s => parseFloat_string s
  | JArr (x :: _) => parseFloat x
  | _ => NaN
  end.

(** A number that is not [NaN]. *)
Inductive extended : Type :=
| MinusInf
| Finite (q : Q)
| PlusInf.

(** [x || 0] on a number: [NaN] and 0 are the falsy ones. *)
Definition or_zero (x : jsnum) : extended :=
  match x with
  | NaN => Finite 0
  | Fin q => if Qeq_bool q 0 then Finite 0 else Finite q
  | PosInf => PlusInf
  | NegInf => MinusInf
  end.

(** [Math.min(10, Math.max(0, x))] *)
Definition clamp (x : extended) : Q :=
  match x with
  | MinusInf => 0
  | PlusInf => 10
  | Finite q => Qmin 10 (Qmax 0 q)
  end.

(** [Math.round(x)]: the nearest integer, a half rounding up. *)
Definition Math_round (x : Q) : Z := Qfloor (x + (1 # 2)).

(** [Math.round(x * 10) / 10] *)
Definition round1 (x : Q) : Q := inject_Z (Math_round (x * 10)) / 10.

Definition gtb (a b : Q) : bool := negb (Qle_bool a b).
Definition geb (a b : Q) : bool := Qle_bool b a.

End Num.

(** [Math.min(10, Math.max(0, parseFloat(v) || 0))] *)
Definition clampScore (v : jsval) : Q := Num.clamp (Num.or_zero (Num.parseFloat v)).

Inductive bucket : Type := FAST_FLIP | HOLD | PASS.

#[global] Instance bucket_eq_dec : EqDecision bucket.
Proof. solve_decision. Defined.

(** [['FAST-FLIP', 'HOLD', 'PASS'].includes(v) ? v : 'PASS'] *)
Definition bucket_of (v : jsval) : bucket :=
  match v with
  | JStr s => if String.eqb s "FAST-FLIP" then FAST_FLIP
              else if String.eqb s "HOLD" then HOLD else PASS
  | _ => PASS
  end.

Definition bucket_name (b : bucket) : string :=
  match b with FAST_FLIP => "FAST-FLIP" | HOLD => "HOLD" | PASS => "PASS" end.

(** What the oracle answered to one batch request, as far as the scoring
    functions look at it.
    - [Rejected]: [fetch] or [response.json()] threw;
    - [HttpFailure]: [response.ok] was false;
    - [Malformed]: [JSON.parse(content)] threw (this includes an absent or
      empty content);
    - [NotIterable]: the content parsed to a value [for ... of] cannot
      iterate (a number, a boolean, [null], an object);
    - [Entries l]: the content parsed to an array with elements [l], an
      element being [None] when it is [null]. *)
Inductive oracle_reply (E : Type) : Type :=
| Rejected
| HttpFailure
| Malformed
| NotIterable
| Entries (l : list (option E)).

Arguments Rejected {E}.
Arguments HttpFailure {E}.
Arguments Malformed {E}.
Arguments NotIterable {E}.
Arguments Entries {E} l.

(** ** Single-persona scoring *)

(** One element of the oracle's array. [se_domain] is [Some d] when the
    [domain] property is a string (any other value has no [replace] method
    and the call throws); the text fields hold [String(x || '')]. An
    element that is no object reads as [empty_entry]. *)
Record single_entry : Type := SingleEntry {
  se_domain : option string;
  se_score : jsval;
  se_bucket : jsval;
  se_reason : string;
  se_use_case : string
}.

(** The [{}] of [scoreMap[...] || {}]. *)
Definition empty_entry : single_entry :=
  SingleEntry None JUndefined JUndefined "" "".

(** A record returned by [scoreSingleBatch]. The success path names the
    template [templateUsed]; the failure paths spread the candidate and so
    name it [template]. *)
Record single_result : Type := SingleResult {
  sr_domain : string;
  sr_score : Q;
  sr_bucket : bucket;
  sr_reason : string;
  sr_use_case : string;
  sr_templateUsed : option string;
  sr_template : option string;
  sr_sources : string
}.

(** [s.domain.replace('.com', '').toLowerCase()] *)
Definition domain_key (d : string) : string :=
  Str.toLowerCase (Str.remove_first ".com" d).

(** The loop [for (const s of scores) scoreMap[key] = s]; [None] when an
    element makes it throw. Keys are ordinary property names. *)
Fixpoint build_scoreMap (scores : list (option single_entry))
    (scoreMap : gmap string single_entry) : option (gmap string single_entry) :=
  match scores with
  | [] => Some scoreMap
  | Some s :: rest =>
      match se_domain s with
      | Some d => build_scoreMap rest (<[domain_key d := s]> scoreMap)
      | None => None
      end
  | None :: _ => None
  end.

(** [{ ...c, score: 0, bucket: 'PASS', reason, use_case: '' }] *)
Definition failed_single (reason : string) (c : candidate) : single_result :=
  SingleResult (domain c) 0 PASS reason "" None (Some (template c)) (sources c).

Definition scored_single (scoreMap : gmap string single_entry) (c : candidate) : single_result :=
  let s := default empty_entry (scoreMap !! Str.toLowerCase (domain c)) in
  SingleResult (domain c)
    (clampScore (se_score s))
    (bucket_of (se_bucket s))
    (Str.slice0 200 (se_reason s))
    (Str.slice0 50 (se_use_case s))
    (Some (template c)) None (sources c).

Definition scoreSingleBatch (batch : list candidate) (reply : oracle_reply single_entry)
    : list single_result :=
  match reply with
  | HttpFailure => map (failed_single "Scoring failed") batch
  | Entries scores =>
      match build_scoreMap scores ∅ with
      | Some scoreMap => map (scored_single scoreMap) batch
      | None => map (failed_single "Error") batch
      end
  | Rejected | Malformed | NotIterable => map (failed_single "Error") batch
  end.

(** ** Multi-persona scoring *)

(** A persona's sub-result inside [resultsByPreset]; a value that is no
    object reads as [empty_preset_result], the [{}] of
    [resultsByPreset[pid] || {}]. *)
Record preset_result : Type := PresetResult {
  pr_score : jsval;
  pr_bucket : jsval;
  pr_reason : string;
  pr_use_case : string
}.

Definition empty_preset_result : preset_result :=
  PresetResult JUndefined JUndefined "" "".

(** One element of the oracle's array in multi-persona mode: [me_domain]
    is [String(r.domain || '')]; [me_resultsByPreset] is [None] when the
    property is absent or falsy. *)
Record multi_entry : Type := MultiEntry {
  me_domain : string;
  me_resultsByPreset : option (gmap string preset_result)
}.

(** A persona as far as the result depends on it: [name] ("" when absent).
    Its other fields only enter the prompt. *)
Record preset : Type := Preset {
  preset_name : string
}.

Record multi_result : Type := MultiResult {
  mr_domain : string;
  mr_templateUsed : string;
  mr_sources : string;
  bestPresetId : option string;
  bestPresetName : option string;
  bestScore : Q;
  avgScore : Q;
  maxScore : Q;
  mr_bucket : bucket;
  mr_reason : string;
  mr_use_case : string;
  scoreByPreset : gmap string Q
}.

(** [presetMap[id]?.name || id], where [id] may be [undefined] (which
    indexes the property called "undefined"). *)
Definition preset_display (presetMap : gmap string preset) (id : option string)
    : option string :=
  let name := preset_name <$> presetMap !! default "undefined" id in
  match name with
  | Some n => if String.eqb n "" then id else Some n
  | None => id
  end.

Definition createEmptyMultiResult (c : candidate) (presetIds : list string)
    (presetMap : gmap string preset) : multi_result :=
  let scoreByPreset :=
    fold_left (fun m id => <[id := 0%Q]> m) presetIds (∅ : gmap string Q) in
  MultiResult (domain c) (template c) (sources c)
    (head presetIds) (preset_display presetMap (head presetIds))
    0 0 0 PASS "Scoring failed" "" scoreByPreset.

(** The variables of the loop of [processMultiResult]. *)
Record best_state : Type := BestState {
  st_bestScore : Q;
  st_bestPresetId : option string;
  st_bestBucket : bucket;
  st_bestReason : string;
  st_bestUseCase : string;
  st_scoreByPreset : gmap string Q;
  st_scores : list Q
}.

Definition best_init (presetIds : list string) : best_state :=
  BestState 0 (head presetIds) PASS "" "" ∅ [].

(** One iteration of [for (const pid of presetIds)]. *)
Definition best_step (resultsByPreset : gmap string preset_result)
    (st : best_state) (pid : string) : best_state :=
  let result := default empty_preset_result (resultsByPreset !! pid) in
  let score := clampScore (pr_score result) in
  let scoreByPreset := <[pid := Num.round1 score]> (st_scoreByPreset st) in
  let scores := st_scores st ++ [score] in
  if Num.gtb score (st_bestScore st) then
    BestState score (Some pid) (bucket_of (pr_bucket result))
      (Str.slice0 200 (pr_reason result)) (Str.slice0 50 (pr_use_case result))
      scoreByPreset scores
  else
    BestState (st_bestScore st) (st_bestPresetId st) (st_bestBucket st)
      (st_bestReason st) (st_bestUseCase st) scoreByPreset scores.

(** [scores.length > 0 ? scores.reduce((a, b) => a + b, 0) / scores.length : 0] *)
Definition average (scores : list Q) : Q :=
  match scores with
  | [] => 0%Q
  | _ => (fold_left Qplus scores 0 / inject_Z (Z.of_nat (length scores)))%Q
  end.

Definition finalBucket (bestScore : Q) (bestBucket : bucket) : bucket :=
  if Num.geb bestScore 8 then FAST_FLIP
  else if Num.geb bestScore 7 then
    (if decide (bestBucket = FAST_FLIP) then FAST_FLIP else HOLD)
  else if Num.geb bestScore 4 then HOLD
  else PASS.

Definition processMultiResult (c : candidate) (resultsByPreset : gmap string preset_result)
    (presetIds : list string) (presetMap : gmap string preset) : multi_result :=
  let st := fold_left (best_step resultsByPreset) presetIds (best_init presetIds) in
  MultiResult (domain c) (template c) (sources c)
    (st_bestPresetId st) (preset_display presetMap (st_bestPresetId st))
    (Num.round1 (st_bestScore st))
    (Num.round1 (average (st_scores st)))
    (Num.round1 (st_bestScore st))
    (finalBucket (st_bestScore st) (st_bestBucket st))
    (st_bestReason st) (st_bestUseCase st) (st_scoreByPreset st).

(** What [processMultiResult] reads for one persona: its sub-result, its
    clamped score before any rounding, and its own bucket. *)
Definition persona_result (resultsByPreset : gmap string preset_result) (pid : string)
    : preset_result :=
  default empty_preset_result (resultsByPreset !! pid).

Definition persona_score (resultsByPreset : gmap string preset_result) (pid : string) : Q :=
  clampScore (pr_score (persona_result resultsByPreset pid)).

Definition persona_bucket (resultsByPreset : gmap string preset_result) (pid : string)
    : bucket :=
  bucket_of (pr_bucket (persona_result resultsByPreset pid)).

(** The highest clamped score among the requested personas, before
    rounding (0 for no persona). *)
Definition highest (resultsByPreset : gmap string preset_result) (presetIds : list string)
    : Q :=
  foldr Qmax 0%Q (map (persona_score resultsByPreset) presetIds).

(** The loop [for (const r of rawResults) resultMap[key] = r]; [None] when
    a [null] element makes it throw. *)
Fixpoint build_resultMap (rawResults : list (option multi_entry))
    (resultMap : gmap string multi_entry) : option (gmap string multi_entry) :=
  match rawResults with
  | [] => Some resultMap
  | Some r :: rest => build_resultMap rest (<[domain_key (me_domain r) := r]> resultMap)
  | None :: _ => None
  end.

Definition scored_multi (resultMap : gmap string multi_entry) (presetIds : list string)
    (presetMap : gmap string preset) (c : candidate) : multi_result :=
  match resultMap !! Str.toLowerCase (domain c) ≫= me_resultsByPreset with
  | Some resultsByPreset => processMultiResult c resultsByPreset presetIds presetMap
  | None => createEmptyMultiResult c presetIds presetMap
  end.

Definition scoreMultiPresetBatch (batch : list candidate) (presetIds : list string)
    (presetMap : gmap string preset) (reply : oracle_reply multi_entry)
    : list multi_result :=
  let failed := map (fun c => createEmptyMultiResult c presetIds presetMap) batch in
  match reply with
  | Entries rawResults =>
      match build_resultMap rawResults ∅ with
      | Some resultMap => map (scored_multi resultMap presetIds presetMap) batch
      | None => failed
      end
  | _ => failed
  end.

(** ** Batching, ranking and truncation *)

Definition MAX_TOPK : Z := 300.
Definition BATCH_SIZE : nat := 80.

(** [isMultiPreset ? Math.min(60, BATCH_SIZE) : BATCH_SIZE] *)
Definition batchSize (isMultiPreset : bool) : nat :=
  if isMultiPreset then Nat.min 60 BATCH_SIZE else BATCH_SIZE.

Section Arrays.

Context {T : Type}.

(** [arr.slice(i, j)] for [0 <= i <= j]. *)
Definition slice (i j : nat) (arr : list T) : list T := take (j - i) (drop i arr).

(** The loop of [chunkArray], started at index [i] with [chunks] still
    empty. The loop runs for ever when [size] is 0; [None] is a loop that
    has not ended after [fuel] rounds. *)
Fixpoint chunk_loop (fuel : nat) (arr : list T) (size i : nat) : option (list (list T)) :=
  if (i <? length arr)%nat then
    match fuel with
    | O => None
    | S fuel' => cons (slice i (i + size) arr) <$> chunk_loop fuel' arr size (i + size)
    end
  else Some [].

(** [chunkArray(arr, size)]: a round moves [i] by [size], so for a
    positive [size] there are at most [arr.length] rounds. *)
Definition chunkArray (arr : list T) (size : nat) : option (list (list T)) :=
  chunk_loop (length arr) arr size 0.

(** [arr.sort(cmp)]: the sort of the language is stable, and for a
    comparator that is a consistent ordering its result is fixed: the
    elements in ascending order of [cmp], equal ones in their former
    order. [a] stays before [b] unless [cmp a b > 0]. *)
Fixpoint sort_insert (cmp : T -> T -> Q) (a : T) (sorted : list T) : list T :=
  match sorted with
  | [] => [a]
  | b :: rest => if Num.gtb (cmp a b) 0 then b :: sort_insert cmp a rest
                 else a :: sorted
  end.

Definition Array_sort (cmp : T -> T -> Q) (arr : list T) : list T :=
  foldr (sort_insert cmp) [] arr.

(** [arr.slice(0, k)] for an integer [k]; a negative [k] counts from the
    end. *)
Definition slice_to (k : Z) (arr : list T) : list T :=
  if (k <? 0)%Z then take (Z.to_nat (Z.of_nat (length arr) + k)) arr
  else take (Z.to_nat k) arr.

End Arrays.

(** [Math.min(topK || 100, MAX_TOPK)] *)
Definition limitedTopK (topK : option Z) : Z :=
  Z.min (match topK with
         | Some k => if Z.eqb k 0 then 100 else k
         | None => 100
         end) MAX_TOPK.

(** The comparators of step 3 of [handler]. *)
Definition by_score (a b : single_result) : Q := (sr_score b - sr_score a)%Q.

Definition by_best_then_avg (a b : multi_result) : Q :=
  if negb (Qeq_bool (bestScore b) (bestScore a)) then (bestScore b - bestScore a)%Q
  else (avgScore b - avgScore a)%Q.

(** Step 3 of [handler]: sort, then [slice(0, limitedTopK)]. *)
Definition rank_single (topK : option Z) (allScores : list single_result)
    : list single_result :=
  slice_to (limitedTopK topK) (Array_sort by_score allScores).

Definition rank_multi (topK : option Z) (allScores : list multi_result)
    : list multi_result :=
  slice_to (limitedTopK topK) (Array_sort by_best_then_avg allScores).

(** The case labels of the [switch] of [applyTemplate]. *)
Definition known_templates : list string :=
  ["A+B"; "B+A"; "A+B+C"; "prefix+A+B"; "A+B+suffix"; "prefix+A+B+suffix"].

(** ** The request handler of the agent function *)

Definition MAX_CANDIDATES : Z := 10000.
Definition MAX_PRESETS : nat := 6.

(** The parsed request body, as far as the response depends on it ([mode]
    only selects a sentence of the prompt). [req_presetIds] is [Some l]
    when the property is an array; [req_presets] lists the persona objects
    with their [id] ("" for an element without one). *)
Record agent_request : Type := AgentRequest {
  req_task : string;
  req_packs : option packs;
  req_multipliers : option multipliers;
  req_templates : option (list string);
  req_constraints : option constraints;
  req_topK : option Z;
  req_presetIds : option (list string);
  req_presets : list (string * preset)
}.

Inductive agent_results : Type :=
| SingleResults (results : list single_result)
| MultiResults (results : list multi_result).

(** The responses of [handler]: status and what the body says. *)
Inductive agent_response : Type :=
| Preflight                            (* 200, empty body *)
| MethodNotAllowed                     (* 405 *)
| InvalidTask                          (* 400 *)
| InvalidPresetCount                   (* 400 *)
| TooManyCandidates (n : nat)          (* 400 *)
| NoCandidates (multiPreset : bool)    (* 200, no results *)
| ApiKeyMissing                        (* 500 *)
| Scored (count totalGenerated : nat) (multiPreset : bool)
         (presetIds : option (list string)) (results : agent_results)   (* 200 *)
| InternalError.                       (* 500, from the [catch] *)

(** [for (const p of presets || []) if (p && p.id) presetMap[p.id] = p] *)
Definition build_presetMap (presets : list (string * preset)) : gmap string preset :=
  fold_left (fun presetMap p => if String.eqb (fst p) "" then presetMap
                                else <[fst p := snd p]> presetMap)
            presets ∅.

(** [handler]. [body] is [None] when [JSON.parse(event.body)] throws or
    gives [null]; [apiKey] is "" when the variable is not set; the two
    oracles give the answer to the request for the batch of each index. *)
Definition handler (httpMethod : string) (body : option agent_request) (apiKey : string)
    (single_oracle : nat -> oracle_reply single_entry)
    (multi_oracle : nat -> oracle_reply multi_entry) : agent_response :=
  if String.eqb httpMethod "OPTIONS" then Preflight
  else if negb (String.eqb httpMethod "POST") then MethodNotAllowed
  else
    match body with
    | None => InternalError
    | Some req =>
        if negb (String.eqb (req_task req) "generate_and_score") then InvalidTask
        else
          let presetIds := default [] (req_presetIds req) in
          let isMultiPreset := (0 <? length presetIds)%nat in
          if isMultiPreset &&
             ((length presetIds <? 1)%nat || (MAX_PRESETS <? length presetIds)%nat)
          then InvalidPresetCount
          else
            let candidates :=
              generateCombinations (req_packs req) (req_multipliers req)
                (req_templates req) (req_constraints req) in
            if (MAX_CANDIDATES <? Z.of_nat (length candidates))%Z
            then TooManyCandidates (length candidates)
            else if (length candidates =? 0)%nat then NoCandidates isMultiPreset
            else if String.eqb apiKey "" then ApiKeyMissing
            else
              match chunkArray candidates (batchSize isMultiPreset) with
              | None => InternalError
              | Some batches =>
                  if isMultiPreset then
                    let presetMap := build_presetMap (req_presets req) in
                    let allScores :=
                      concat (imap (fun i batch =>
                                      scoreMultiPresetBatch batch presetIds presetMap
                                        (multi_oracle i)) batches) in
                    let results := rank_multi (req_topK req) allScores in
                    Scored (length results) (length candidates) true (Some presetIds)
                      (MultiResults results)
                  else
                    let allScores :=
                      concat (imap (fun i batch => scoreSingleBatch batch (single_oracle i))
                                   batches) in
                    let results := rank_single (req_topK req) allScores in
                    Scored (length results) (length candidates) false None
                      (SingleResults results)
              end
    end.

(** The domains of the records of a response. *)
Definition result_domains (r : agent_results) : list string :=
  match r with
  | SingleResults l => map sr_domain l
  | MultiResults l => map mr_domain l
  end.

(** ** The score function: requests with retries *)

(** What one call of [fetch] does: it answers (with [response.ok] and
    [response.status]), or it throws. *)
Inductive fetch_outcome (B : Type) : Type :=
| Answered (ok : bool) (status : Z) (body : B)
| Failed (error : string).

Arguments Answered {B} ok status body.
Arguments Failed {B} error.

(** How [fetchWithRetry] ends: with a response, or by throwing. *)
Inductive retry_end (B : Type) : Type :=
| Returned (ok : bool) (status : Z) (body : B)
| Threw (error : string).

Arguments Returned {B} ok status body.
Arguments Threw {B} error.

(** A run of [fetchWithRetry]: how it ended, how often it called [fetch],
    and the pauses it made, in milliseconds. *)
Record retry_run (B : Type) : Type := RetryRun {
  run_end : retry_end B;
  run_calls : nat;
  run_sleeps : list Z
}.

Arguments RetryRun {B} run_end run_calls run_sleeps.
Arguments run_end {B} r.
Arguments run_calls {B} r.
Arguments run_sleeps {B} r.

Section Retry.

Context {B : Type}.

(** [fetch i] is what the call number [i] of [fetch] does. *)
Variable fetch : nat -> fetch_outcome B.
Variables (retries : nat) (delay : Z).

(** The loop [for (let i = 0; i < retries; i++)], with [remaining] rounds
    to go from index [i]. *)
Fixpoint retry_loop (remaining i : nat) (sleeps : list Z) : retry_run B :=
  match remaining with
  | O => RetryRun (Threw "Max retries exceeded") i sleeps
  | S remaining' =>
      match fetch i with
      | Answered ok status body =>
          if ok || (status <? 500)%Z then RetryRun (Returned ok status body) (S i) sleeps
          else retry_loop remaining' (S i)
                 (if (i <? retries - 1)%nat
                  then sleeps ++ [(delay * (Z.of_nat i + 1))%Z] else sleeps)
      | Failed error =>
          if (i =? retries - 1)%nat then RetryRun (Threw error) (S i) sleeps
          else retry_loop remaining' (S i) (sleeps ++ [(delay * (Z.of_nat i + 1))%Z])
      end
  end.

Definition fetchWithRetry : retry_run B := retry_loop retries 0 [].

(** An attempt the loop does not return from: a throw, or an answer that
    is not [ok] with a status of 500 or more. *)
Definition attempt_fails (o : fetch_outcome B) : bool :=
  match o with
  | Answered ok status _ => negb (ok || (status <? 500)%Z)
  | Failed _ => true
  end.

End Retry.

(** The pauses [delay * 1, delay * 2, ..., delay * n]. *)
Definition backoff (delay : Z) (n : nat) : list Z :=
  map (fun j => (delay * (Z.of_nat j + 1))%Z) (seq 0 n).

(** ** The score function: the cross-fit record of a domain *)






(** ** Reading the oracle's text *)

Module Text.

(** [s.trimEnd()] and [s.trim()], on the white space of ASCII. *)
Fixpoint trimEnd (s : string) : string :=
  match s with
  | EmptyString => EmptyString
  | String c s' =>
      let t := trimEnd s' in
      if Num.is_space c && String.eqb t "" then EmptyString else String c t
  end.

Definition trim (s : string) : string := Num.skip_space (trimEnd s).

(** The length of the match of [/```json?\n?/] at the head of [s], 0 when
    it does not match there: three backquotes and "jso" are required, "n"
    and a line feed are taken when present. *)
Definition fence_tag (s : string) : nat :=
  if Str.startsWith "```jso" s then
    match substring 6 2 s with
    | String "n" (String "010" _) => 8
    | String "n" _ => 7
    | String "010" _ => 7
    | _ => 6
    end
  else 0.

(** [s.replace(/```json?\n?/g, '')]; [skip] characters of a match found
    before are still to be dropped. *)
Fixpoint remove_fence_tags (skip : nat) (s : string) : string :=
  match s with
  | EmptyString => EmptyString
  | String c s' =>
      match skip with
      | S k => remove_fence_tags k s'
      | O => match fence_tag s with
             | O => String c (remove_fence_tags 0 s')
             | S k => remove_fence_tags k s'
             end
      end
  end.

(** [s.replace(/```$/g, '')]: three backquotes at the very end go. *)
Fixpoint remove_last_fence (s : string) : string :=
  match s with
  | EmptyString => EmptyString
  | String c s' => if String.eqb s "```" then EmptyString
                   else String c (remove_last_fence s')
  end.

Definition unfence (s : string) : string :=
  trim (remove_last_fence (remove_fence_tags 0 s)).

(** The text [scoreSingleBatch] and [scoreMultiPresetBatch] give to
    [JSON.parse]. *)
Definition batch_text (content : string) : string :=
  if Str.startsWith "```" content then unfence content else content.

(** The text [parseJsonResponse] gives to [JSON.parse]. *)
Definition response_text (content : string) : string :=
  let jsonStr := trim content in
  if Str.startsWith "```" jsonStr then unfence jsonStr else jsonStr.

Definition no_backquote (s : string) : bool :=
  Str.all_chars (fun c => negb (Ascii.eqb c "`")) s.

End Text.

(** ** Splitting a string *)

(** [s.split(sep)] for a one-character separator: never empty, the pieces
    in order. *)
Fixpoint split (sep : ascii) (s : string) : list string :=
  match s with
  | EmptyString => [EmptyString]
  | String c s' =>
      if Ascii.eqb c sep then EmptyString :: split sep s'
      else match split sep s' with
           | piece :: rest => String c piece :: rest
           | [] => [String c EmptyString]
           end
  end.

(** ** The protected winners endpoint (winners.js) *)

Module Winners.

Record winner : Type := {
  w_domain : string;
  category : string;
  status : string;
  price : string;
  notes : string;
  date : string
}.

Definition WINNERS : list winner :=
  [ {| w_domain := "trustflow.com"; category := "Finance"; status := "Want";
       price := "$5000"; notes := "Great brandable"; date := "2025-01-15" |};
    {| w_domain := "payverify.com"; category := "Payments"; status := "Watching";
       price := ""; notes := "Monitor auction"; date := "2025-01-20" |} ].

(** The [user] of [context.clientContext], with its [email] when it has
    one. *)
Record identity : Type := { email : option string }.

Inductive response : Type :=
| Preflight
| MethodNotAllowed
| Unauthorized
| Forbidden
| Success (user : string) (count : nat) (winners : list winner).

Definition allowedEmails (allowedEmailsEnv : string) : list string :=
  List.filter (fun e => negb (String.eqb e ""))
    (map (fun e => Str.toLowerCase (Text.trim e)) (split "," allowedEmailsEnv)).

Definition Array_includes (l : list string) (x : string) : bool :=
  existsb (String.eqb x) l.

(** [ALLOWED_EMAILS] is the environment variable, [None] when unset. *)
Definition handler (httpMethod : string) (user : option identity)
    (ALLOWED_EMAILS : option string) : response :=
  if String.eqb httpMethod "OPTIONS" then Preflight
  else if negb (String.eqb httpMethod "GET") then MethodNotAllowed
  else match user with
       | None => Unauthorized
       | Some u =>
           let userEmail := default "" (email u) in
           let allowedEmailsEnv := default "" ALLOWED_EMAILS in
           if negb (String.eqb allowedEmailsEnv "")
              && ((0 <? length (allowedEmails allowedEmailsEnv))%nat
                  && negb (Array_includes (allowedEmails allowedEmailsEnv)
                             (Str.toLowerCase userEmail)))
           then Forbidden
           else Success userEmail (length WINNERS) WINNERS
       end.


End Winners.

(** ** The availability check (check-domain.js) *)

Module CheckDomain.

Local Open Scope Q_scope.

Definition MOCK_AVAILABILITY_RATE : Q := 3 # 10.

Record check : Type := {
  c_domain : string;
  available : bool;
  price : option Q;
  currency : string;
  premium : bool;
  registrar : string;
  buyUrl : string;
  checkedAt : string;
  method : string
}.

(** [domain.split('.').pop()] *)
Definition tld_of (domain : string) : string := List.last (split "." domain) "".

(** The three calls of [Math.random] are the inputs [r_delay], [r_avail] and
    [r_price], the clock's reading is [now]. *)
Definition checkMockDomain (domain : string) (r_delay r_avail r_price : Q)
    (now : string) : check :=
  let isAvailable := Num.gtb MOCK_AVAILABILITY_RATE r_avail in
  let tld := tld_of domain in
  let price0 := 1099 # 100 in
  let price1 := if String.eqb tld "io" then 3999 # 100 else price0 in
  let price2 := if String.eqb tld "ai" then 7999 # 100 else price1 in
  let price3 := price2 + (r_price * 2 - 1) in
  let price4 := inject_Z (Num.Math_round (price3 * 100)) / 100 in
  {| c_domain := domain;
     available := isAvailable;
     price := if isAvailable then Some price4 else None;
     currency := "USD";
     premium := false;
     registrar := "Namecheap";
     buyUrl := "https://www.namecheap.com/domains/registration/results/?domain=" +:+ domain;
     checkedAt := now;
     method := "mock" |}.

(** What [JSON.parse(event.body)] gives: it throws, or gives [null], or a
    value whose [domain] property is read ([JUndefined] when there is
    none). *)
Inductive parsed_body : Type :=
| BadJson
| NullBody
| WithDomain (domain : jsval).

Definition falsy (v : jsval) : bool :=
  match v with
  | JUndefined | JNull | JBool false | JNum NaN | JStr EmptyString => true
  | JNum (Fin q) => Qeq_bool q 0
  | _ => false
  end.

Inductive response : Type :=
| Preflight
| MethodNotAllowed
| DomainRequired
| Checked (result : check)
| InternalError.

(** [DOMAIN_API_KEY] is the environment variable, [None] when unset; both
    branches on it call [checkMockDomain]. *)
Definition handler (httpMethod : string) (body : parsed_body)
    (DOMAIN_API_KEY : option string) (r_delay r_avail r_price : Q)
    (now : string) : response :=
  if String.eqb httpMethod "OPTIONS" then Preflight
  else if negb (String.eqb httpMethod "POST") then MethodNotAllowed
  else match body with
       | BadJson => InternalError
       | NullBody => InternalError
       | WithDomain domain =>
           if falsy domain then DomainRequired
           else
             let useRealProvider :=
               negb (String.eqb (default "" DOMAIN_API_KEY) "") in
             match domain with
             | JStr d =>
                 if useRealProvider
                 then Checked (checkMockDomain d r_delay r_avail r_price now)
                 else Checked (checkMockDomain d r_delay r_avail r_price now)
             | _ => InternalError
             end
       end.

End CheckDomain.

(** ** The specification's own readings, and sample inputs *)

(** The matching key as the specification words it: the domain
    lower-cased, with ".com" removed only where it is the suffix. *)
Definition endsWith (s p : string) : bool :=
  (String.length p <=? String.length s)%nat &&
  String.eqb (substring (String.length s - String.length p) (String.length p) s) p.

Definition key_by_suffix (d : string) : string :=
  Str.toLowerCase
    (if endsWith d ".com" then substring 0 (String.length d - 4) d else d).

(** The descending orders of the two comparators: [a] ranks at least as
    high as [b]. *)
Definition score_ge (a b : single_result) : Prop := (sr_score b <= sr_score a)%Q.

Definition best_avg_ge (a b : multi_result) : Prop :=
  (bestScore b < bestScore a)%Q \/
  ((bestScore b == bestScore a)%Q /\ (avgScore b <= avgScore a)%Q).


Definition carton_packs : option packs :=
  Some (Packs (Some ["car"; "cart"]) (Some ["ton"; "on"]) None).

Definition pay_packs : option packs :=
  Some (Packs (Some ["pay"]) (Some ["pay"]) None).

Definition trustflow_packs : option packs :=
  Some (Packs (Some ["trust"]) (Some ["flow"]) None).

Definition paypay : candidate := Candidate "paypay" "A+B" "A:pay, B:pay".



(** One persona scoring just under 8 and calling it HOLD. *)
Definition near_eight : gmap string preset_result :=
  <["lenders" := PresetResult (JNum (Fin 7.96875)) (JStr "HOLD") "" ""]> ∅.

(** An oracle entry that reports the score 11 for "paypay.com". *)
Definition eleven_entry : single_entry :=
  SingleEntry (Some "paypay.com") (JNum (Fin 11)) (JStr "FAST-FLIP") "Catchy" "Payments".

(** Three scored records, out of order. *)
Definition three_scored : list single_result :=
  [SingleResult "payhub" 6.5 HOLD "" "" (Some "A+B") None "A:pay, B:hub";
   SingleResult "paypay" 8 FAST_FLIP "" "" (Some "A+B") None "A:pay, B:pay";
   SingleResult "hubpay" 3 PASS "" "" (Some "B+A") None "B:hub, A:pay"].

Definition payhub : candidate := Candidate "payhub" "A+B" "A:pay, B:hub".

(** A request for the template A+B on the packs ["pay"] and ["pay"]. *)
Definition pay_request : agent_request :=
  AgentRequest "generate_and_score" pay_packs None (Some ["A+B"]) None None None [].

(** * Properties *)

(** ** Strings *)

Module StrFacts.
Import Str.

Lemma app_nil_l (b : string) : "" +:+ b = b.
Proof. reflexivity. Qed.

Lemma app_cons (x : ascii) (a b : string) : String x a +:+ b = String x (a +:+ b).
Proof. reflexivity. Qed.

Ltac sapp := rewrite ?app_cons, ?app_nil_l in *.

Lemma app_assoc (a b c : string) : (a +:+ b) +:+ c = a +:+ b +:+ c.
Proof. induction a as [|x a IH]; sapp; [reflexivity | now rewrite IH]. Qed.

Lemma app_empty_r (a : string) : a +:+ "" = a.
Proof. induction a as [|x a IH]; sapp; [reflexivity | now rewrite IH]. Qed.

Lemma length_app (a b : string) :
  String.length (a +:+ b) = (String.length a + String.length b)%nat.
Proof. induction a as [|x a IH]; sapp; simpl; [reflexivity | now rewrite IH]. Qed.

Lemma startsWith_spec (p s : string) :
  startsWith p s = true <-> exists post, s = p +:+ post.
Proof.
  revert s. induction p as [|a p IH]; intros s; simpl.
  - split; [intros _; now exists s | reflexivity].
  - destruct s as [|b s].
    + split; [discriminate | intros [post H]; sapp; discriminate].
    + destruct (ascii_dec a b) as [->|Hab].
      * rewrite IH. split; intros [post H]; exists post; sapp.
        -- now rewrite H.
        -- now inversion H.
      * split; [discriminate | intros [post H]; sapp; congruence].
Qed.

Lemma somewhere_spec (P : string -> bool) (s : string) :
  somewhere P s = true <-> exists pre post, s = pre +:+ post /\ P post = true.
Proof.
  induction s as [|c s IH]; simpl.
  - rewrite orb_false_r. split.
    + intros H. now exists "", "".
    + intros (pre & post & H & HP). destruct pre; sapp; [|discriminate].
      now subst.
  - rewrite orb_true_iff, IH. split.
    + intros [H | (pre & post & -> & HP)].
      * now exists "", (String c s).
      * now exists (String c pre), post.
    + intros (pre & post & H & HP). destruct pre as [|x pre]; sapp.
      * left. now subst.
      * right. inversion H. now exists pre, post.
Qed.

Lemma includes_spec (s p : string) :
  includes s p = true <-> exists pre post, s = pre +:+ p +:+ post.
Proof.
  unfold includes. rewrite somewhere_spec. split.
  - intros (pre & t & -> & H). apply startsWith_spec in H as [post ->].
    now exists pre, post.
  - intros (pre & post & ->). exists pre, (p +:+ post). split; [reflexivity|].
    apply startsWith_spec. now exists post.
Qed.


Lemma all_chars_keep (P : ascii -> bool) (s : string) :
  all_chars P (keep_chars P s) = true.
Proof.
  induction s as [|c s IH]; simpl; [reflexivity|].
  destruct (P c) eqn:E; simpl; [now rewrite E | exact IH].
Qed.


Lemma toLowerCase_id (s : string) :
  all_chars (fun c => negb (is_upper c)) s = true -> toLowerCase s = s.
Proof.
  induction s as [|c s IH]; simpl; [reflexivity|].
  intros [Hc Hs]%andb_true_iff. unfold lower_ascii.
  apply negb_true_iff in Hc. rewrite Hc. now rewrite IH.
Qed.

Lemma all_chars_impl (P R : ascii -> bool) (s : string) :
  (forall c, P c = true -> R c = true) -> all_chars P s = true -> all_chars R s = true.
Proof.
  intros HPR. induction s as [|c s IH]; simpl; [reflexivity|].
  intros [Hc Hs]%andb_true_iff. rewrite (HPR _ Hc). now apply IH.
Qed.

End StrFacts.

(** ** The constraint filter *)

Lemma domain_class_not_upper (c : ascii) :
  in_domain_class c = true -> negb (Str.is_upper c) = true.
Proof.
  destruct c as [[] [] [] [] [] [] [] []]; vm_compute; intros H;
    first [reflexivity | discriminate H].
Qed.

Lemma normalize_in_class (d : string) :
  Str.all_chars in_domain_class (normalize d) = true.
Proof. apply StrFacts.all_chars_keep. Qed.

(** A normalized domain is a fixed point of lower-casing, and so is each
    of its substrings. *)
Lemma in_class_lower (w : string) :
  Str.all_chars in_domain_class w = true -> Str.toLowerCase w = w.
Proof.
  intros H. apply StrFacts.toLowerCase_id.
  eapply StrFacts.all_chars_impl; [apply domain_class_not_upper | exact H].
Qed.

Lemma keep_candidate_Some (cs : option constraints) (raw c : candidate) :
  keep_candidate cs raw = Some c ->
  c = Candidate (normalize (domain raw)) (template raw) (sources raw) /\
  normalize (domain raw) <> "" /\
  (Z.of_nat (String.length (normalize (domain raw))) <= maxLen_of cs)%Z /\
  (noHyphens_of cs = true -> Str.includes (normalize (domain raw)) "-" = false) /\
  (noNumbers_of cs = true ->
   Str.somewhere (fun t => Str.run_of Str.is_digit 1 t) (normalize (domain raw)) = false) /\
  (avoidUglyClusters_of cs = true -> UGLY_CLUSTERS (normalize (domain raw)) = false) /\
  isBanned (banned_of cs) (normalize (domain raw)) = false.
Proof.
  unfold keep_candidate. cbv zeta.
  destruct (String.eqb _ "") eqn:E1; [discriminate|].
  destruct (Z.ltb _ _) eqn:E2; [discriminate|].
  destruct (noHyphens_of cs && _) eqn:E3; [discriminate|].
  destruct (noNumbers_of cs && _) eqn:E4; [discriminate|].
  destruct (avoidUglyClusters_of cs && _) eqn:E5; [discriminate|].
  destruct (isBanned _ _) eqn:E6; [discriminate|].
  intros [= <-]. apply String.eqb_neq in E1. apply Z.ltb_ge in E2.
  apply andb_false_iff in E3, E4, E5.
  repeat split; try assumption.
  - intros H. destruct E3 as [E3|E3]; [congruence | exact E3].
  - intros H. destruct E4 as [E4|E4]; [congruence | exact E4].
  - intros H. destruct E5 as [E5|E5]; [congruence | exact E5].
Qed.

(** ** The set of raw candidates *)

Lemma set_add_NoDup (x : candidate) (s : list candidate) :
  NoDup s -> NoDup (set_add x s).
Proof.
  intros H. unfold set_add. destruct (decide (x ∈ s)) as [Hin|Hin]; [exact H|].
  apply NoDup_app. repeat split; [exact H | | apply NoDup_singleton].
  intros y Hy Hy'. apply list_elem_of_singleton in Hy'. now subst.
Qed.

Lemma set_add_elem (x y : candidate) (s : list candidate) :
  y ∈ set_add x s <-> y = x \/ y ∈ s.
Proof.
  unfold set_add. destruct (decide (x ∈ s)) as [Hin|Hin].
  - split; [now right | intros [->|H]; assumption].
  - rewrite elem_of_app, list_elem_of_singleton. tauto.
Qed.

Lemma add_all_NoDup (l s : list candidate) :
  NoDup s -> NoDup (fold_left (fun results combo => set_add combo results) l s).
Proof.
  revert s. induction l as [|x l IH]; intros s H; simpl; [exact H|].
  apply IH, set_add_NoDup, H.
Qed.

Lemma add_all_elem (y : candidate) (l s : list candidate) :
  y ∈ fold_left (fun results combo => set_add combo results) l s <-> y ∈ l \/ y ∈ s.
Proof.
  revert s. induction l as [|x l IH]; intros s; simpl.
  - rewrite elem_of_nil. tauto.
  - rewrite IH, set_add_elem, elem_of_cons. tauto.
Qed.

Lemma raw_set_NoDup p m ts : NoDup (raw_set p m ts).
Proof.
  unfold raw_set. cbv zeta.
  generalize (@nil candidate) (NoDup_nil_2 (A:=candidate)).
  induction (default ["A+B"] ts) as [|t l IH]; intros s H; simpl; [exact H|].
  apply IH, add_all_NoDup, H.
Qed.

Lemma raw_set_elem p m ts (c : candidate) :
  c ∈ raw_set p m ts <->
  exists t, t ∈ default ["A+B"] ts /\
    c ∈ applyTemplate (default [] (p ≫= pack_A)) (default [] (p ≫= pack_B))
          (default [] (p ≫= pack_C)) (default [] (m ≫= mult_prefixes))
          (default [] (m ≫= mult_suffixes)) t.
Proof.
  unfold raw_set. cbv zeta.
  set (f := applyTemplate _ _ _ _ _).
  assert (G : forall l s, c ∈ fold_left (fun results template =>
                fold_left (fun results combo => set_add combo results) (f template) results) l s
              <-> (exists t, t ∈ l /\ c ∈ f t) \/ c ∈ s).
  { induction l as [|t l IH]; intros s; simpl.
    - split; [now right | intros [(t & H & _)|H]; [inversion H | exact H]].
    - rewrite IH, add_all_elem. split.
      + intros [(t' & H1 & H2) | [H|H]].
        * left. exists t'. split; [now right | exact H2].
        * left. exists t. split; [now left | exact H].
        * now right.
      + intros [(t' & H1 & H2) | H].
        * apply elem_of_cons in H1 as [->|H1]; [right; now left|].
          left. now exists t'.
        * right. now right. }
  rewrite G. split; [intros [H|H]; [exact H | inversion H] | now left].
Qed.

Lemma omap_count (cs : option constraints) (d : string) (l : list candidate) :
  length (filter (fun c => domain c = d) (omap (keep_candidate cs) l)) =
  length (filter (fun r => is_Some (keep_candidate cs r) /\ normalize (domain r) = d) l).
Proof.
  induction l as [|r l IH]; [reflexivity|].
  cbn [omap list_omap]. rewrite (filter_cons _ r l).
  destruct (keep_candidate cs r) as [c|] eqn:E.
  - apply keep_candidate_Some in E as [-> _]. rewrite filter_cons. cbn [domain].
    destruct (decide (normalize (domain r) = d)) as [Hd|Hd].
    + rewrite decide_True by (split; [eauto | exact Hd]). simpl. now rewrite IH.
    + rewrite decide_False by tauto. exact IH.
  - rewrite decide_False; [exact IH|]. intros [[x Hx] _]. discriminate.
Qed.

Lemma omap_domain_NoDup (cs : option constraints) (l : list candidate) :
  NoDup l ->
  (forall r1 r2, r1 ∈ l -> r2 ∈ l ->
     is_Some (keep_candidate cs r1) -> is_Some (keep_candidate cs r2) ->
     normalize (domain r1) = normalize (domain r2) -> r1 = r2) ->
  NoDup (map domain (omap (keep_candidate cs) l)).
Proof.
  induction 1 as [|r l Hr Hl IH]; intros Hinj; [constructor|].
  cbn [omap list_omap].
  assert (IH' : NoDup (map domain (omap (keep_candidate cs) l))).
  { apply IH. intros r1 r2 H1 H2. apply Hinj; now right. }
  destruct (keep_candidate cs r) as [c|] eqn:E; [|exact IH'].
  cbn [map]. constructor; [|exact IH'].
  intros Hin. apply list_elem_of_In, in_map_iff in Hin as (c' & Hd & Hc').
  apply list_elem_of_In in Hc'. symmetry in Hd.
  apply list_elem_of_omap in Hc' as (r' & Hr' & E').
  apply keep_candidate_Some in E as E1. destruct E1 as [-> _].
  apply keep_candidate_Some in E' as E2. destruct E2 as [-> _].
  cbn [domain] in Hd.
  apply Hr. rewrite (Hinj r r'); [exact Hr' | now left | now right | eauto | eauto | exact Hd].
Qed.

(** C1 (as amended). [generateCombinations] collapses only exact repeats
    of a raw candidate (same raw domain, template and sources): the set
    it iterates is duplicate-free, and every distinct raw candidate that
    passes the filter yields one returned entry. So the number of returned
    entries with a given normalized domain is the number of distinct
    surviving raw candidates that normalize to it, and the returned
    domains are pairwise unique when no two of those share a normalized
    domain. *)
Theorem C1_one_entry_per_distinct_raw_candidate
    (p : option packs) (m : option multipliers) (ts : option (list string))
    (cs : option constraints) :
  NoDup (raw_set p m ts) /\
  (forall d : string,
     length (filter (fun c => domain c = d) (generateCombinations p m ts cs)) =
     length (filter (fun r => is_Some (keep_candidate cs r) /\ normalize (domain r) = d)
                    (raw_set p m ts))) /\
  ((forall r1 r2, r1 ∈ raw_set p m ts -> r2 ∈ raw_set p m ts ->
      is_Some (keep_candidate cs r1) -> is_Some (keep_candidate cs r2) ->
      normalize (domain r1) = normalize (domain r2) -> r1 = r2) ->
   NoDup (map domain (generateCombinations p m ts cs))).
Proof.
  split; [apply raw_set_NoDup|]. split.
  - intros d. apply omap_count.
  - apply omap_domain_NoDup, raw_set_NoDup.
Qed.

(** C1, the claim as stated, fails: "car"+"ton" and "cart"+"on" are two
    source tuples of the template A+B with the domain "carton", and both
    are returned; "pay"+"pay" is returned once for A+B and once for B+A. *)
Lemma C1_counterexample :
  ~ NoDup (map domain (generateCombinations carton_packs None (Some ["A+B"]) None)) /\
  ~ NoDup (map domain (generateCombinations pay_packs None (Some ["A+B"; "B+A"]) None)).
Proof.
  split; vm_compute; intros H.
  - apply NoDup_cons in H as [Hn _]. apply Hn. repeat constructor.
  - apply NoDup_cons in H as [Hn _]. apply Hn. repeat constructor.
Qed.

Lemma C1_witness :
  NoDup (map domain (generateCombinations trustflow_packs None (Some ["A+B"; "B+A"])
                       (Some (Constraints None None None None (Some false))))).
Proof.
  apply (C1_one_entry_per_distinct_raw_candidate trustflow_packs None (Some ["A+B"; "B+A"])
           (Some (Constraints None None None None (Some false)))).
  intros r1 r2 H1 H2 _ _.
  vm_compute in H1, H2.
  apply elem_of_cons in H1 as [->|H1]; apply elem_of_cons in H2 as [->|H2];
    try (apply list_elem_of_singleton in H1 as ->);
    try (apply list_elem_of_singleton in H2 as ->);
    first [reflexivity | (vm_compute; discriminate)].
Defined.

(** C2 (as amended). For packs A=["trust"], B=["flow"] and the template
    list ["A+B"], the default constraints return no candidate: "trustflow"
    holds the four consonants "stfl" in a row and the ugly-cluster filter,
    on by default, drops it. With that filter switched off and the other
    defaults kept, exactly the one candidate "trustflow" is returned; with
    [maxLen = 8] none is, whether the filter is on or off. *)
Theorem C2_trustflow (m : option multipliers) :
  UGLY_CLUSTERS "trustflow" = true /\
  generateCombinations trustflow_packs m (Some ["A+B"]) None = [] /\
  generateCombinations trustflow_packs m (Some ["A+B"])
    (Some (Constraints None None None None (Some false)))
  = [Candidate "trustflow" "A+B" "A:trust, B:flow"] /\
  generateCombinations trustflow_packs m (Some ["A+B"])
    (Some (Constraints (Some 8%Z) None None None None)) = [] /\
  generateCombinations trustflow_packs m (Some ["A+B"])
    (Some (Constraints (Some 8%Z) None None None (Some false))) = [].
Proof. repeat split; vm_compute; reflexivity. Qed.

(** C2, the claim as stated, fails: with the default constraints the
    result is empty, not the single candidate "trustflow". *)
Lemma C2_counterexample :
  generateCombinations trustflow_packs None (Some ["A+B"]) None = [] /\
  map domain (generateCombinations trustflow_packs None (Some ["A+B"]) None) <> ["trustflow"].
Proof. split; vm_compute; [reflexivity | discriminate]. Qed.



(** ** Numbers: clamping and rounding *)

Module NumFacts.
Import Num.
Local Open Scope Q_scope.

Lemma clamp_range (x : extended) : 0 <= clamp x <= 10.
Proof.
  destruct x as [|q|]; simpl; try (split; discriminate).
  split.
  - apply Q.min_glb; [discriminate | apply Q.le_max_l].
  - apply Q.le_min_l.
Qed.

Lemma Math_round_mono (x y : Q) : x <= y -> (Math_round x <= Math_round y)%Z.
Proof.
  intros H. unfold Math_round. apply Qfloor_resp_le.
  apply Qplus_le_compat; [exact H | apply Qle_refl].
Qed.

Lemma round1_mono (x y : Q) : x <= y -> round1 x <= round1 y.
Proof.
  intros H. unfold round1, Qdiv. apply Qmult_le_compat_r; [|discriminate].
  rewrite <- Zle_Qle. apply Math_round_mono.
  apply Qmult_le_compat_r; [exact H | discriminate].
Qed.

Lemma round1_comp (x y : Q) : x == y -> round1 x == round1 y.
Proof.
  intros H. apply Qle_antisym; apply round1_mono; rewrite H; apply Qle_refl.
Qed.

Lemma round1_range (x : Q) : 0 <= x <= 10 -> 0 <= round1 x <= 10.
Proof.
  intros [H0 H10]. split.
  - apply (Qle_trans _ (round1 0)); [discriminate | now apply round1_mono].
  - apply (Qle_trans _ (round1 10)); [now apply round1_mono | discriminate].
Qed.

Lemma gtb_spec (a b : Q) : gtb a b = true <-> b < a.
Proof.
  unfold gtb. rewrite negb_true_iff. split.
  - intros H. apply Qnot_le_lt. intros Hle. apply Qle_bool_iff in Hle. congruence.
  - intros H. destruct (Qle_bool a b) eqn:E; [|reflexivity].
    apply Qle_bool_iff in E. exfalso. exact (Qlt_not_le _ _ H E).
Qed.

Lemma gtb_false (a b : Q) : gtb a b = false <-> a <= b.
Proof. unfold gtb. rewrite negb_false_iff. apply Qle_bool_iff. Qed.

Lemma geb_spec (a b : Q) : geb a b = true <-> b <= a.
Proof. apply Qle_bool_iff. Qed.

Lemma geb_false (a b : Q) : geb a b = false <-> a < b.
Proof.
  unfold geb. split.
  - intros H. apply Qnot_le_lt. intros Hle. apply Qle_bool_iff in Hle. congruence.
  - intros H. destruct (Qle_bool b a) eqn:E; [|reflexivity].
    apply Qle_bool_iff in E. exfalso. exact (Qlt_not_le _ _ H E).
Qed.

Lemma sum_range (l : list Q) (a : Q) :
  Forall (fun x => 0 <= x <= 10) l ->
  a <= fold_left Qplus l a <= a + 10 * inject_Z (Z.of_nat (length l)).
Proof.
  intros H. revert a. induction H as [|x l [Hx0 Hx10] _ IH]; intros a.
  - simpl. split; [apply Qle_refl|]. ring_simplify. apply Qle_refl.
  - cbn [fold_left]. destruct (IH (a + x)) as [IH1 IH2].
    change (length (x :: l)) with (S (length l)).
    rewrite Nat2Z.inj_succ. unfold Z.succ. rewrite inject_Z_plus.
    change (inject_Z 1) with 1. split; lra.
Qed.

End NumFacts.

Lemma clampScore_range (v : jsval) : (0 <= clampScore v <= 10)%Q.
Proof. apply NumFacts.clamp_range. Qed.

Lemma average_range (l : list Q) :
  Forall (fun x => 0 <= x <= 10)%Q l -> (0 <= average l <= 10)%Q.
Proof.
  intros H. destruct l as [|x l]; [split; discriminate|].
  unfold average. set (n := inject_Z (Z.of_nat (length (x :: l)))).
  assert (Hn : (0 < n)%Q).
  { unfold n. change 0%Q with (inject_Z 0). rewrite <- Zlt_Qlt. simpl. lia. }
  destruct (NumFacts.sum_range (x :: l) 0 H) as [H1 H2]. fold n in H2. split.
  - apply Qle_shift_div_l; [exact Hn|]. now rewrite Qmult_0_l.
  - apply Qle_shift_div_r; [exact Hn|]. now rewrite Qplus_0_l in H2.
Qed.

(** ** The loop of [processMultiResult] *)

Section BestLoop.

Variable rbp : gmap string preset_result.
Variable ids0 : list string.

Local Open Scope Q_scope.

Lemma best_step_scores (st : best_state) (pid : string) :
  st_scores (best_step rbp st pid) = st_scores st ++ [persona_score rbp pid].
Proof. unfold best_step. cbv zeta. now destruct (Num.gtb _ _). Qed.

Lemma best_step_scoreByPreset (st : best_state) (pid : string) :
  st_scoreByPreset (best_step rbp st pid) =
  <[pid := Num.round1 (persona_score rbp pid)]> (st_scoreByPreset st).
Proof. unfold best_step. cbv zeta. now destruct (Num.gtb _ _). Qed.

(** After the personas [l] have been visited: the scores seen, the map
    built, and the best persona so far, which is the first one that
    reaches the highest score (or nobody yet, while all scores are 0). *)
Lemma best_loop_invariant (l : list string) :
  let st := fold_left (best_step rbp) l (best_init ids0) in
  st_scores st = map (persona_score rbp) l /\
  (forall pid, st_scoreByPreset st !! pid =
               if decide (pid ∈ l) then Some (Num.round1 (persona_score rbp pid)) else None) /\
  0 <= st_bestScore st /\
  Forall (fun p => persona_score rbp p <= st_bestScore st) l /\
  ((st_bestScore st = 0 /\ st_bestPresetId st = head ids0 /\ st_bestBucket st = PASS)
   \/ exists l1 w l2,
        l = l1 ++ w :: l2 /\ st_bestPresetId st = Some w /\
        st_bestScore st = persona_score rbp w /\ 0 < persona_score rbp w /\
        st_bestBucket st = persona_bucket rbp w /\
        Forall (fun p => persona_score rbp p < persona_score rbp w) l1 /\
        Forall (fun p => persona_score rbp p <= persona_score rbp w) l2).
Proof.
  induction l as [|pid l IH] using rev_ind; cbv zeta.
  - simpl. repeat split; try reflexivity.
    + discriminate.
    + constructor.
    + left. repeat split.
  - rewrite fold_left_app. cbn [fold_left].
    set (st := fold_left (best_step rbp) l (best_init ids0)) in *.
    cbv zeta in IH. destruct IH as (Hs & Hm & H0 & Hle & Hbest).
    split; [|split].
    { rewrite best_step_scores, Hs, map_app. reflexivity. }
    { intros q. rewrite best_step_scoreByPreset.
      destruct (decide (pid = q)) as [->|Hne].
      - rewrite lookup_insert_eq, decide_True; [reflexivity|].
        apply elem_of_app. right. now apply list_elem_of_singleton.
      - rewrite lookup_insert_ne by exact Hne. rewrite Hm.
        destruct (decide (q ∈ l)) as [Hq|Hq].
        + rewrite decide_True; [reflexivity | apply elem_of_app; now left].
        + rewrite decide_False; [reflexivity|].
          intros [H|H%list_elem_of_singleton]%elem_of_app; [tauto | congruence]. }
    unfold best_step. cbv zeta. fold (persona_result rbp pid).
    fold (persona_score rbp pid). fold (persona_bucket rbp pid).
    destruct (Num.gtb (persona_score rbp pid) (st_bestScore st)) eqn:E; cbn.
    + apply NumFacts.gtb_spec in E. split; [|split].
      * lra.
      * apply Forall_app. split; [|repeat constructor; lra].
        eapply Forall_impl; [exact Hle|]. intros p Hp. cbv beta in Hp. lra.
      * right. exists l, pid, []. repeat split; try reflexivity; try constructor.
        -- lra.
        -- eapply Forall_impl; [exact Hle|]. intros p Hp. cbv beta in Hp. lra.
    + apply NumFacts.gtb_false in E. split; [exact H0|]. split.
      * apply Forall_app. split; [exact Hle | repeat constructor; exact E].
      * destruct Hbest as [H|(l1 & w & l2 & -> & Hid & Hb & Hw & Hbk & H1 & H2)];
          [now left | right].
        exists l1, w, (l2 ++ [pid]). rewrite <- app_assoc. repeat split; try assumption.
        apply Forall_app. split; [exact H2|]. repeat constructor. now rewrite <- Hb.
Qed.

End BestLoop.

Lemma highest_nonneg rbp (ids : list string) : (0 <= highest rbp ids)%Q.
Proof.
  induction ids as [|p ids IH]; simpl; [discriminate|].
  eapply Qle_trans; [exact IH | apply Q.le_max_r].
Qed.

Lemma highest_upper rbp (ids : list string) (p : string) :
  p ∈ ids -> (persona_score rbp p <= highest rbp ids)%Q.
Proof.
  induction ids as [|q ids IH]; intros H; [inversion H|].
  apply elem_of_cons in H as [->|H]; simpl.
  - apply Q.le_max_l.
  - eapply Qle_trans; [apply IH, H | apply Q.le_max_r].
Qed.

Lemma highest_least rbp (ids : list string) (b : Q) :
  (0 <= b)%Q -> Forall (fun p => persona_score rbp p <= b)%Q ids ->
  (highest rbp ids <= b)%Q.
Proof.
  intros Hb H. induction H as [|p ids Hp _ IH]; simpl; [exact Hb|].
  apply Q.max_lub; assumption.
Qed.

(** The loop's best score is the highest clamped score. *)
Lemma best_is_highest rbp (ids0 ids : list string) :
  (st_bestScore (fold_left (best_step rbp) ids (best_init ids0)) == highest rbp ids)%Q.
Proof.
  destruct (best_loop_invariant rbp ids0 ids) as (_ & _ & H0 & Hle & Hbest).
  apply Qle_antisym.
  - destruct Hbest as [(-> & _) | (l1 & w & l2 & Hl & _ & -> & _)].
    + apply highest_nonneg.
    + apply highest_upper. rewrite Hl. apply elem_of_app. right. now left.
  - now apply highest_least.
Qed.

Lemma bestScore_rounds_highest c rbp (ids : list string) pm :
  (bestScore (processMultiResult c rbp ids pm) == Num.round1 (highest rbp ids))%Q.
Proof.
  unfold processMultiResult. cbv zeta. cbn [bestScore].
  apply NumFacts.round1_comp, best_is_highest.
Qed.

(** ** The final bucket *)





(** ** Ranges of the stored scores *)

Lemma persona_score_range rbp (p : string) : (0 <= persona_score rbp p <= 10)%Q.
Proof. apply clampScore_range. Qed.




Lemma scoreSingleBatch_cases (batch : list candidate) (reply : oracle_reply single_entry) :
  (exists reason, scoreSingleBatch batch reply = map (failed_single reason) batch) \/
  (exists scoreMap, scoreSingleBatch batch reply = map (scored_single scoreMap) batch).
Proof.
  destruct reply as [| | | |scores]; cbn [scoreSingleBatch]; eauto.
  destruct (build_scoreMap scores ∅); eauto.
Qed.



(** ** Multi-persona aggregates *)




(** ** Failure records of the single-persona path *)

Lemma failed_batch (reason : string) (batch : list candidate) :
  Forall2 (fun c r => sr_domain r = domain c /\ sr_score r = 0%Q /\ sr_bucket r = PASS /\
                      sr_reason r = reason /\ sr_use_case r = "")
          batch (map (failed_single reason) batch).
Proof. induction batch as [|c batch IH]; constructor; [repeat split | exact IH]. Qed.

(** C5 (as amended). When the oracle's answer cannot be parsed (the body
    is no JSON, or the message content is no JSON, or it is JSON that
    cannot be iterated), [scoreSingleBatch] returns exactly one record per
    submitted candidate, in order, each with the candidate's domain, score
    0, bucket PASS and reason "Error". The reason "Scoring failed" is the
    one of a response whose HTTP status is not OK. For every reply the
    result has one record per candidate. *)
Theorem C5_unparseable_reply (batch : list candidate) :
  Forall (fun reply =>
            Forall2 (fun c r => sr_domain r = domain c /\ sr_score r = 0%Q /\
                                sr_bucket r = PASS /\ sr_reason r = "Error" /\
                                sr_use_case r = "")
                    batch (scoreSingleBatch batch reply))
         [Malformed; Rejected; NotIterable] /\
  Forall2 (fun c r => sr_domain r = domain c /\ sr_score r = 0%Q /\
                      sr_bucket r = PASS /\ sr_reason r = "Scoring failed" /\
                      sr_use_case r = "")
          batch (scoreSingleBatch batch HttpFailure) /\
  forall reply, length (scoreSingleBatch batch reply) = length batch.
Proof.
  split; [repeat constructor; apply failed_batch|]. split; [apply failed_batch|].
  intros reply.
  destruct (scoreSingleBatch_cases batch reply) as [[reason ->] | [scoreMap ->]];
    apply length_map.
Qed.

(** C5, the claim as stated, fails: on an unparseable content the record
    of the candidate carries the reason "Error", not "Scoring failed". *)
Lemma C5_counterexample :
  map sr_reason (scoreSingleBatch [paypay] Malformed) = ["Error"] /\
  map sr_reason (scoreSingleBatch [paypay] Malformed) <> ["Scoring failed"].
Proof. split; [reflexivity | discriminate]. Qed.

(** ** The matching key *)

Module KeyFacts.
Import Str StrFacts.

Lemma substring_all (s : string) : substring 0 (String.length s) s = s.
Proof. induction s as [|c s IH]; simpl; [reflexivity | now rewrite IH]. Qed.

Lemma substring_skip (p post : string) :
  substring (String.length p) (String.length (p +:+ post) - String.length p) (p +:+ post)
  = post.
Proof.
  induction p as [|c p IH]; sapp.
  - simpl. rewrite Nat.sub_0_r. apply substring_all.
  - simpl. exact IH.
Qed.

Lemma remove_first_cons (p : string) (c : ascii) (s : string) :
  remove_first p (String c s) =
  if startsWith p (String c s)
  then substring (String.length p) (String.length (String c s) - String.length p) (String c s)
  else String c (remove_first p s).
Proof. reflexivity. Qed.

Lemma remove_first_here (p post : string) : remove_first p (p +:+ post) = post.
Proof.
  assert (H : startsWith p (p +:+ post) = true) by (apply startsWith_spec; eauto).
  destruct (p +:+ post) as [|c s] eqn:E.
  - simpl. rewrite H. destruct p; [|sapp; discriminate]. sapp. now subst.
  - rewrite remove_first_cons, H, <- E. apply substring_skip.
Qed.

Lemma includes_cons_false (c : ascii) (s p : string) :
  includes (String c s) p = false ->
  startsWith p (String c s) = false /\ includes s p = false.
Proof. unfold includes. cbn [somewhere]. apply orb_false_iff. Qed.

Lemma remove_first_absent (p s : string) : includes s p = false -> remove_first p s = s.
Proof.
  induction s as [|c s IH]; intros H.
  - unfold includes in H. cbn [somewhere] in H. apply orb_false_iff in H as [H _].
    simpl. now rewrite H.
  - apply includes_cons_false in H as [H1 H2].
    rewrite remove_first_cons, H1, IH; [reflexivity | exact H2].
Qed.

(** [startsWith p] looks at the first [length p] characters only. *)
Lemma startsWith_app (p s t : string) :
  (String.length p <= String.length s)%nat -> startsWith p (s +:+ t) = startsWith p s.
Proof.
  revert s. induction p as [|a p IH]; intros s H; [reflexivity|].
  destruct s as [|b s]; [simpl in H; lia|]. sapp. simpl.
  destruct (ascii_dec a b); [|reflexivity]. apply IH. simpl in H. lia.
Qed.

Lemma remove_first_first (pre post : string) :
  includes (pre +:+ ".co") ".com" = false ->
  remove_first ".com" (pre +:+ ".com" +:+ post) = pre +:+ post.
Proof.
  induction pre as [|c pre IH]; intros H.
  - rewrite !app_nil_l. apply (remove_first_here ".com").
  - rewrite !(app_cons c). rewrite (app_cons c) in H.
    apply includes_cons_false in H as [H1 H2].
    assert (E : String c (pre +:+ ".com" +:+ post)
                = String c (pre +:+ ".co") +:+ ("m" +:+ post)).
    { rewrite (app_cons c). f_equal. now rewrite app_assoc. }
    assert (F : startsWith ".com" (String c (pre +:+ ".com" +:+ post)) = false).
    { rewrite E, startsWith_app; [exact H1|]. simpl. rewrite length_app. simpl. lia. }
    rewrite remove_first_cons, F. f_equal. now apply IH.
Qed.

End KeyFacts.

Module SuffixFacts.
Import Str StrFacts.

Lemma substring_prefix (pre s : string) : substring 0 (String.length pre) (pre +:+ s) = pre.
Proof.
  induction pre as [|c pre IH]; sapp; simpl.
  - now destruct s.
  - now rewrite IH.
Qed.

Lemma substring_suffix (pre p : string) :
  substring (String.length pre) (String.length p) (pre +:+ p) = p.
Proof.
  induction pre as [|c pre IH]; sapp; simpl; [apply KeyFacts.substring_all | exact IH].
Qed.

Lemma substring_head (m : nat) (s : string) :
  (m <= String.length s)%nat -> exists post, s = substring 0 m s +:+ post.
Proof.
  revert s. induction m as [|m IH]; intros s H.
  - exists s. now destruct s.
  - destruct s as [|c s]; [simpl in H; lia|].
    destruct (IH s) as [post E]; [simpl in H; lia|].
    exists post. simpl. sapp. now rewrite <- E.
Qed.

Lemma substring_inside (n m : nat) (s : string) :
  (n + m <= String.length s)%nat -> exists pre post, s = pre +:+ substring n m s +:+ post.
Proof.
  revert s. induction n as [|n IH]; intros s H.
  - destruct (substring_head m s) as [post E]; [simpl in H; lia|]. now exists "", post.
  - destruct s as [|c s]; [simpl in H; lia|].
    destruct (IH s) as (pre & post & E); [simpl in H; lia|].
    exists (String c pre), post. simpl. sapp. now rewrite <- E.
Qed.

Lemma endsWith_includes (s p : string) : endsWith s p = true -> includes s p = true.
Proof.
  unfold endsWith. intros [Hlen Heq]%andb_true_iff.
  apply Nat.leb_le in Hlen. apply String.eqb_eq in Heq.
  apply includes_spec.
  destruct (substring_inside (String.length s - String.length p) (String.length p) s)
    as (pre & post & E); [lia|].
  rewrite Heq in E. eauto.
Qed.

Lemma key_by_suffix_absent (d : string) :
  includes d ".com" = false -> key_by_suffix d = toLowerCase d.
Proof.
  intros H. unfold key_by_suffix.
  destruct (endsWith d ".com") eqn:E; [|reflexivity].
  apply endsWith_includes in E. congruence.
Qed.

Lemma key_by_suffix_suffix (pre : string) :
  key_by_suffix (pre +:+ ".com") = toLowerCase pre.
Proof.
  unfold key_by_suffix, endsWith. rewrite length_app.
  replace (String.length pre + String.length ".com" - String.length ".com")%nat
    with (String.length pre) by lia.
  rewrite substring_suffix, String.eqb_refl.
  replace (String.length ".com" <=? String.length pre + String.length ".com")%nat
    with true by (symmetry; apply Nat.leb_le; lia).
  cbn [andb]. replace (String.length pre + String.length ".com" - 4)%nat
    with (String.length pre) by (simpl; lia).
  now rewrite substring_prefix.
Qed.

End SuffixFacts.

Lemma build_scoreMap_last (scores : list (option single_entry)) (s : single_entry)
    (d : string) (m0 m : gmap string single_entry) :
  se_domain s = Some d -> build_scoreMap (scores ++ [Some s]) m0 = Some m ->
  m !! domain_key d = Some s.
Proof.
  intros Hd. revert m0. induction scores as [|[e|] scores IH]; intros m0; simpl.
  - rewrite Hd. intros [= <-]. apply lookup_insert_eq.
  - destruct (se_domain e); [apply IH | discriminate].
  - discriminate.
Qed.

Lemma build_resultMap_last (raw : list (option multi_entry)) (r : multi_entry)
    (m0 m : gmap string multi_entry) :
  build_resultMap (raw ++ [Some r]) m0 = Some m -> m !! domain_key (me_domain r) = Some r.
Proof.
  revert m0. induction raw as [|[e|] raw IH]; intros m0; simpl.
  - intros [= <-]. apply lookup_insert_eq.
  - apply IH.
  - discriminate.
Qed.

(** C8 (as amended). The key built for an oracle entry is the entry's
    domain with the first occurrence of ".com" removed, wherever it stands
    and in exactly this letter case, and then lower-cased. When ".com"
    occurs only as the suffix, or not at all, this is the domain
    lower-cased with the suffix stripped; a differently-cased ".COM" is
    not removed. The entry is stored under that key, and each submitted
    candidate is looked up by its own normalized domain. *)
Theorem C8_matching_key :
  (forall d : string,
     Str.includes d ".com" = false ->
     domain_key d = Str.toLowerCase d /\ domain_key d = key_by_suffix d) /\
  (forall pre post : string,
     Str.includes (pre +:+ ".co") ".com" = false ->
     domain_key (pre +:+ ".com" +:+ post) = Str.toLowerCase (pre +:+ post)) /\
  (forall pre : string,
     Str.includes (pre +:+ ".co") ".com" = false ->
     domain_key (pre +:+ ".com") = Str.toLowerCase pre /\
     domain_key (pre +:+ ".com") = key_by_suffix (pre +:+ ".com")) /\
  domain_key "Brand.COM" = "brand.com" /\
  (forall (scores : list (option single_entry)) (s : single_entry) (d : string)
          (m : gmap string single_entry),
     se_domain s = Some d -> build_scoreMap (scores ++ [Some s]) ∅ = Some m ->
     m !! domain_key d = Some s) /\
  (forall (raw : list (option multi_entry)) (r : multi_entry) (m : gmap string multi_entry),
     build_resultMap (raw ++ [Some r]) ∅ = Some m ->
     m !! domain_key (me_domain r) = Some r) /\
  (forall p mu ts cs (c : candidate),
     c ∈ generateCombinations p mu ts cs -> Str.toLowerCase (domain c) = domain c) /\
  (forall (scoreMap : gmap string single_entry) (c : candidate) (s : single_entry),
     Str.toLowerCase (domain c) = domain c -> scoreMap !! domain c = Some s ->
     scored_single scoreMap c =
     SingleResult (domain c) (clampScore (se_score s)) (bucket_of (se_bucket s))
       (Str.slice0 200 (se_reason s)) (Str.slice0 50 (se_use_case s))
       (Some (template c)) None (sources c)) /\
  (forall (resultMap : gmap string multi_entry) (ids : list string)
          (pm : gmap string preset) (c : candidate) (r : multi_entry)
          (rbp : gmap string preset_result),
     Str.toLowerCase (domain c) = domain c -> resultMap !! domain c = Some r ->
     me_resultsByPreset r = Some rbp ->
     scored_multi resultMap ids pm c = processMultiResult c rbp ids pm).
Proof.
  split; [|split; [|split; [|split; [reflexivity|]]]].
  - intros d H. unfold domain_key. rewrite (KeyFacts.remove_first_absent _ _ H).
    split; [reflexivity|]. now rewrite SuffixFacts.key_by_suffix_absent.
  - intros pre post H. unfold domain_key. now rewrite KeyFacts.remove_first_first.
  - intros pre H.
    assert (E : domain_key (pre +:+ ".com") = Str.toLowerCase pre).
    { unfold domain_key. rewrite <- (StrFacts.app_empty_r ".com"), KeyFacts.remove_first_first
        by exact H. now rewrite StrFacts.app_empty_r. }
    split; [exact E|]. now rewrite SuffixFacts.key_by_suffix_suffix.
  - split; [intros scores s d m; apply build_scoreMap_last|].
    split; [intros raw r m; apply build_resultMap_last|].
    split; [|split].
    + intros p mu ts cs c Hc. apply list_elem_of_omap in Hc as (raw & _ & E).
      apply keep_candidate_Some in E as (-> & _). cbn [domain].
      apply in_class_lower, normalize_in_class.
    + intros scoreMap c s Hl Hs. unfold scored_single. cbv zeta. now rewrite Hl, Hs.
    + intros resultMap ids pm c r rbp Hl Hr Hrbp. unfold scored_multi.
      rewrite Hl, Hr. simpl. now rewrite Hrbp.
Qed.

Lemma C8_witness :
  domain_key "paypay.com" = "paypay" /\ domain_key "paypay.com" = key_by_suffix "paypay.com".
Proof.
  destruct C8_matching_key as (_ & _ & Hsuffix & _).
  apply (Hsuffix "paypay"). vm_compute. reflexivity.
Defined.

(** C8, the claim as stated, fails: an interior ".com" is removed. The key
    of "a.comb" is "ab", and the key of "shop.company.com" is
    "shoppany.com": the first occurrence goes and the suffix stays. *)
Lemma C8_counterexample :
  (domain_key "a.comb" = "ab" /\ key_by_suffix "a.comb" = "a.comb") /\
  (domain_key "shop.company.com" = "shoppany.com" /\
   key_by_suffix "shop.company.com" = "shop.company") /\
  domain_key "a.comb" <> key_by_suffix "a.comb".
Proof. vm_compute. repeat split; discriminate. Qed.

(** ** Sorting and truncation *)

Section SortFacts.

Context {T : Type}.
Variable cmp : T -> T -> Q.
Variable R : T -> T -> Prop.

Hypothesis cmp_R : forall a b, Num.gtb (cmp a b) 0 = false <-> R a b.
Hypothesis R_total : forall a b, R a b \/ R b a.
Hypothesis R_trans : forall a b c, R a b -> R b c -> R a c.

Lemma sort_insert_perm (a : T) (l : list T) : Permutation (sort_insert cmp a l) (a :: l).
Proof.
  induction l as [|b l IH]; simpl; [reflexivity|].
  destruct (Num.gtb (cmp a b) 0); [|reflexivity].
  rewrite IH. apply perm_swap.
Qed.

Lemma Array_sort_perm (l : list T) : Permutation (Array_sort cmp l) l.
Proof.
  induction l as [|a l IH]; simpl; [reflexivity|].
  unfold Array_sort in *. simpl. rewrite sort_insert_perm. now constructor.
Qed.

Lemma sort_insert_sorted (a : T) (l : list T) :
  StronglySorted R l -> StronglySorted R (sort_insert cmp a l).
Proof.
  induction 1 as [|b l Hl IH Hb]; simpl; [repeat constructor|].
  destruct (Num.gtb (cmp a b) 0) eqn:E.
  - constructor; [exact IH|].
    assert (Hba : R b a).
    { destruct (R_total a b) as [H|H]; [|exact H].
      apply cmp_R in H. congruence. }
    eapply Permutation_Forall; [symmetry; apply sort_insert_perm|].
    constructor; assumption.
  - apply cmp_R in E. constructor; [now constructor|].
    constructor; [exact E|]. eapply Forall_impl; [exact Hb|].
    intros x Hx. now apply (R_trans a b x).
Qed.

Lemma Array_sort_sorted (l : list T) : StronglySorted R (Array_sort cmp l).
Proof.
  induction l as [|a l IH]; [constructor|].
  unfold Array_sort in *. simpl. now apply sort_insert_sorted.
Qed.

Lemma sorted_app_inv (l1 l2 : list T) :
  StronglySorted R (l1 ++ l2) ->
  StronglySorted R l1 /\ forall x y, x ∈ l1 -> y ∈ l2 -> R x y.
Proof.
  induction l1 as [|a l1 IH]; simpl; intros H.
  - split; [constructor | intros x y Hx; inversion Hx].
  - inversion H as [|? ? Hs Ha]; subst. destruct (IH Hs) as [IH1 IH2]. split.
    + constructor; [exact IH1|]. apply Forall_app in Ha. tauto.
    + intros x y [->|Hx]%elem_of_cons Hy.
      * rewrite Forall_forall in Ha. apply Ha. apply elem_of_app. now right.
      * now apply IH2.
Qed.


End SortFacts.

Lemma by_score_ge (a b : single_result) : Num.gtb (by_score a b) 0 = false <-> score_ge a b.
Proof.
  rewrite NumFacts.gtb_false. unfold by_score, score_ge. split; intros H; lra.
Qed.

Lemma score_ge_total (a b : single_result) : score_ge a b \/ score_ge b a.
Proof.
  unfold score_ge. destruct (Qlt_le_dec (sr_score a) (sr_score b)) as [H|H];
    [right; now apply Qlt_le_weak | now left].
Qed.

Lemma score_ge_trans (a b c : single_result) : score_ge a b -> score_ge b c -> score_ge a c.
Proof. unfold score_ge. intros. lra. Qed.

Lemma by_best_then_avg_ge (a b : multi_result) :
  Num.gtb (by_best_then_avg a b) 0 = false <-> best_avg_ge a b.
Proof.
  rewrite NumFacts.gtb_false. unfold by_best_then_avg, best_avg_ge.
  destruct (Qeq_bool (bestScore b) (bestScore a)) eqn:E; cbn [negb].
  - apply Qeq_bool_eq in E. split; [intros H; right; split; [exact E | lra]|].
    intros [H | [_ H]]; lra.
  - apply Qeq_bool_neq in E. split.
    + intros H. left. apply Qle_lteq in H as [H | H]; [lra|].
      exfalso. apply E. lra.
    + intros [H | [H _]]; [lra | contradiction].
Qed.

Lemma best_avg_ge_total (a b : multi_result) : best_avg_ge a b \/ best_avg_ge b a.
Proof.
  unfold best_avg_ge.
  destruct (Q_dec (bestScore a) (bestScore b)) as [[H|H]|H].
  - right. now left.
  - left. now left.
  - destruct (Qlt_le_dec (avgScore a) (avgScore b)) as [H'|H'].
    + right. right. split; [exact H | now apply Qlt_le_weak].
    + left. right. split; [now symmetry | exact H'].
Qed.

Lemma best_avg_ge_trans (a b c : multi_result) :
  best_avg_ge a b -> best_avg_ge b c -> best_avg_ge a c.
Proof.
  unfold best_avg_ge. intros [H1 | [H1 H1']] [H2 | [H2 H2']].
  - left. lra.
  - left. lra.
  - left. lra.
  - right. split; lra.
Qed.



(** ** Batching *)

Section ChunkFacts.

Context {T : Type}.

Lemma slice_as_take (i size : nat) (arr : list T) :
  slice i (i + size) arr = take size (drop i arr).
Proof. unfold slice. f_equal. lia. Qed.

(** The loop from index [i], given fuel for the rounds that remain. *)
Lemma chunk_loop_spec (fuel : nat) (arr : list T) (size i : nat) :
  (0 < size)%nat -> (length arr - i <= fuel)%nat ->
  exists chunks,
    chunk_loop fuel arr size i = Some chunks /\
    concat chunks = drop i arr /\
    Forall (fun ch => (0 < length ch <= size)%nat) chunks /\
    (forall j ch, chunks !! j = Some ch ->
       ch = slice (i + j * size) (i + j * size + size) arr) /\
    (forall j ch, chunks !! j = Some ch -> (S j < length chunks)%nat -> length ch = size).
Proof.
  intros Hsize. revert i. induction fuel as [|fuel IH]; intros i Hfuel.
  - exists []. simpl. rewrite (proj2 (Nat.ltb_ge i (length arr))) by lia.
    repeat split; try constructor; try (intros j ch H; inversion H).
    symmetry. apply drop_ge. lia.
  - cbn [chunk_loop]. destruct (i <? length arr)%nat eqn:Ei.
    + apply Nat.ltb_lt in Ei.
      destruct (IH (i + size)%nat) as (rest & Hrest & Hcat & Hlen & Hidx & Hfull); [lia|].
      exists (slice i (i + size) arr :: rest). rewrite Hrest. split; [reflexivity|].
      rewrite slice_as_take. split; [|split; [|split]].
      * simpl. rewrite Hcat, <- drop_drop. apply take_drop.
      * constructor; [|exact Hlen]. rewrite length_take, length_drop. lia.
      * intros [|j] ch Hj; simpl in Hj.
        -- injection Hj as <-. rewrite <- slice_as_take. f_equal; lia.
        -- rewrite (Hidx j ch Hj). f_equal; lia.
      * intros [|j] ch Hj Hlt; simpl in Hj, Hlt.
        -- injection Hj as <-. rewrite length_take, length_drop.
           destruct rest as [|ch' rest']; [simpl in Hlt; lia|].
           destruct fuel as [|fuel']; cbn [chunk_loop] in Hrest;
             destruct (i + size <? length arr)%nat eqn:E2; try discriminate.
           apply Nat.ltb_lt in E2. lia.
        -- apply (Hfull j ch Hj). lia.
    + exists []. apply Nat.ltb_ge in Ei.
      repeat split; try constructor; try (intros j ch H; inversion H).
      symmetry. apply drop_ge. lia.
Qed.

End ChunkFacts.

(** C10. For every array and every positive chunk size, [chunkArray]
    returns chunks that are the contiguous slices [size*j .. size*j+size)
    of the array, whose concatenation in order is the array; every chunk
    is non-empty and has at most [size] elements, and every chunk except
    possibly the last has exactly [size]. *)
Theorem C10_chunkArray_partition {T : Type} (arr : list T) (size : nat) :
  (0 < size)%nat ->
  exists chunks,
    chunkArray arr size = Some chunks /\
    concat chunks = arr /\
    Forall (fun ch => (0 < length ch <= size)%nat) chunks /\
    (forall j ch, chunks !! j = Some ch ->
       ch = slice (j * size) (j * size + size) arr) /\
    (forall j ch, chunks !! j = Some ch -> (S j < length chunks)%nat -> length ch = size).
Proof.
  intros Hsize. unfold chunkArray.
  destruct (chunk_loop_spec (length arr) arr size 0 Hsize)
    as (chunks & E & Hcat & Hlen & Hidx & Hfull); [lia|].
  exists chunks. repeat split; assumption.
Qed.

Lemma C10_witness :
  exists chunks,
    chunkArray [1; 2; 3; 4; 5; 6; 7]%nat 3 = Some chunks /\
    chunks = [[1; 2; 3]; [4; 5; 6]; [7]]%nat /\
    concat chunks = [1; 2; 3; 4; 5; 6; 7]%nat.
Proof.
  destruct (C10_chunkArray_partition [1; 2; 3; 4; 5; 6; 7]%nat 3) as (chunks & E & Hcat & _);
    [lia|].
  exists chunks. split; [exact E|]. split; [|exact Hcat].
  vm_compute in E. now injection E as <-.
Defined.

(** * Further properties of the code *)

(** ** The template expander *)

Lemma bind_const_length {X Y : Type} (f : X -> list Y) (n : nat) (l : list X) :
  (forall x, length (f x) = n) -> length (l ≫= f) = (length l * n)%nat.
Proof.
  intros H. induction l as [|x l IH]; [reflexivity|].
  rewrite bind_cons, length_app, H, IH. simpl. lia.
Qed.

Lemma applyTemplate_length (A B C prefixes suffixes : list string) :
  length (applyTemplate A B C prefixes suffixes "A+B") = (length A * length B)%nat /\
  length (applyTemplate A B C prefixes suffixes "B+A") = (length B * length A)%nat /\
  length (applyTemplate A B C prefixes suffixes "A+B+C")
  = (length A * (length B * length C))%nat /\
  length (applyTemplate A B C prefixes suffixes "prefix+A+B")
  = (length prefixes * (length A * length B))%nat /\
  length (applyTemplate A B C prefixes suffixes "A+B+suffix")
  = (length A * (length B * length suffixes))%nat /\
  length (applyTemplate A B C prefixes suffixes "prefix+A+B+suffix")
  = (length prefixes * (length A * (length B * length suffixes)))%nat.
Proof.
  unfold applyTemplate. cbn [String.eqb Ascii.eqb Bool.eqb andb].
  repeat split;
    (etransitivity;
     [repeat (eapply bind_const_length; intros ?); cbn [length]; reflexivity
     |rewrite ?Nat.mul_1_r; reflexivity]).
Qed.

Lemma applyTemplate_unknown (A B C prefixes suffixes : list string) (t : string) :
  t ∉ known_templates -> applyTemplate A B C prefixes suffixes t = [].
Proof.
  intros H. unfold applyTemplate.
  repeat match goal with
         | |- context [String.eqb t ?k] =>
             destruct (String.eqb_spec t k) as [->|_];
             [exfalso; apply H; unfold known_templates; set_solver|]
         end.
  reflexivity.
Qed.

Lemma applyTemplate_known_cases (t : string) :
  t ∈ known_templates ->
  t = "A+B" \/ t = "B+A" \/ t = "A+B+C" \/ t = "prefix+A+B" \/ t = "A+B+suffix" \/
  t = "prefix+A+B+suffix".
Proof. unfold known_templates. rewrite !elem_of_cons, elem_of_nil. tauto. Qed.

Lemma applyTemplate_no_A_or_B (A B C prefixes suffixes : list string) (t : string) :
  A = [] \/ B = [] -> applyTemplate A B C prefixes suffixes t = [].
Proof.
  intros H. destruct (decide (t ∈ known_templates)) as [Hk|Hk];
    [|now apply applyTemplate_unknown].
  apply nil_length_inv.
  destruct (applyTemplate_length A B C prefixes suffixes) as (L1 & L2 & L3 & L4 & L5 & L6).
  assert (Z0 : (length A * length B = 0)%nat) by (destruct H as [-> | ->]; simpl; lia).
  apply applyTemplate_known_cases in Hk
    as [-> | [-> | [-> | [-> | [-> | ->]]]]];
    first [rewrite L1 | rewrite L2 | rewrite L3 | rewrite L4 | rewrite L5 | rewrite L6];
    destruct H as [-> | ->]; simpl; lia.
Qed.

Lemma applyTemplate_template (A B C prefixes suffixes : list string) (t : string)
    (c : candidate) :
  c ∈ applyTemplate A B C prefixes suffixes t -> template c = t /\ t ∈ known_templates.
Proof.
  destruct (decide (t ∈ known_templates)) as [Hk|Hk];
    [|rewrite applyTemplate_unknown by exact Hk; intros H; inversion H].
  intros Hc. split; [|exact Hk].
  apply applyTemplate_known_cases in Hk as [-> | [-> | [-> | [-> | [-> | ->]]]]];
    unfold applyTemplate in Hc; cbn [String.eqb Ascii.eqb Bool.eqb andb] in Hc;
    repeat (apply list_elem_of_bind in Hc as (? & Hc & _));
    apply list_elem_of_singleton in Hc; now subst c.
Qed.

(** X1. The raw expansion of a template has as many candidates as the
    product of the sizes of the lists it combines, and a template name that
    is none of the six known ones (names are compared exactly, so "a+b"
    is unknown) expands to nothing. *)
Theorem X1_template_sizes (A B C prefixes suffixes : list string) :
  (length (applyTemplate A B C prefixes suffixes "A+B") = (length A * length B)%nat /\
   length (applyTemplate A B C prefixes suffixes "B+A") = (length B * length A)%nat /\
   length (applyTemplate A B C prefixes suffixes "A+B+C")
   = (length A * (length B * length C))%nat /\
   length (applyTemplate A B C prefixes suffixes "prefix+A+B")
   = (length prefixes * (length A * length B))%nat /\
   length (applyTemplate A B C prefixes suffixes "A+B+suffix")
   = (length A * (length B * length suffixes))%nat /\
   length (applyTemplate A B C prefixes suffixes "prefix+A+B+suffix")
   = (length prefixes * (length A * (length B * length suffixes)))%nat) /\
  (forall t, t ∉ known_templates -> applyTemplate A B C prefixes suffixes t = []) /\
  applyTemplate A B C prefixes suffixes "a+b" = [].
Proof.
  split; [apply applyTemplate_length|]. split; [intros t; apply applyTemplate_unknown|].
  reflexivity.
Qed.

Lemma X1_witness :
  applyTemplate ["pay"] ["hub"] [] [] [] "AB" = [].
Proof.
  destruct (X1_template_sizes ["pay"] ["hub"] [] [] []) as (_ & Hunknown & _).
  apply Hunknown. unfold known_templates. intros H.
  repeat (apply elem_of_cons in H as [H|H]; [discriminate H|]). inversion H.
Defined.

Lemma raw_set_nil p m ts :
  (forall t, applyTemplate (default [] (p ≫= pack_A)) (default [] (p ≫= pack_B))
               (default [] (p ≫= pack_C)) (default [] (m ≫= mult_prefixes))
               (default [] (m ≫= mult_suffixes)) t = []) ->
  raw_set p m ts = [].
Proof.
  intros H. destruct (raw_set p m ts) as [|c l] eqn:E; [reflexivity|].
  assert (Hc : c ∈ raw_set p m ts) by (rewrite E; now left).
  apply raw_set_elem in Hc as (t & _ & Hc). rewrite H in Hc. inversion Hc.
Qed.

(** X2. Every template combines a word of pack A with a word of pack B:
    when either pack is empty or absent, no candidate is generated,
    whatever the other packs, multipliers, templates and constraints. *)
Theorem X2_empty_pack_gives_nothing
    (p : option packs) (m : option multipliers) (ts : option (list string))
    (cs : option constraints) :
  default [] (p ≫= pack_A) = [] \/ default [] (p ≫= pack_B) = [] ->
  generateCombinations p m ts cs = [].
Proof.
  intros H. unfold generateCombinations. rewrite raw_set_nil; [reflexivity|].
  intros t. now apply applyTemplate_no_A_or_B.
Qed.

Lemma X2_witness :
  generateCombinations (Some (Packs (Some ["pay"]) None (Some ["hub"])))
    (Some (Multipliers (Some ["my"]) (Some ["ly"]))) (Some known_templates) None = [].
Proof. apply X2_empty_pack_gives_nothing. right. reflexivity. Defined.

(** ** The filter, from both sides *)




Lemma add_all_extends (l s : list candidate) :
  exists new, fold_left (fun results combo => set_add combo results) l s = s ++ new /\
              forall y, y ∈ new -> y ∈ l.
Proof.
  revert s. induction l as [|x l IH]; intros s; cbn [fold_left].
  - exists []. split; [now rewrite app_nil_r | intros y H; inversion H].
  - destruct (decide (x ∈ s)) as [Hin|Hin].
    + replace (set_add x s) with s by (unfold set_add; now rewrite decide_True).
      destruct (IH s) as (new & E & Hnew). exists new. split; [exact E|].
      intros y Hy. right. now apply Hnew.
    + replace (set_add x s) with (s ++ [x]) by (unfold set_add; now rewrite decide_False).
      destruct (IH (s ++ [x])) as (new & E & Hnew). exists (x :: new).
      split; [now rewrite E, <- app_assoc|].
      intros y [->|Hy]%elem_of_cons; [now left | right; now apply Hnew].
Qed.

Lemma add_all_length (l s : list candidate) :
  (length (fold_left (fun results combo => set_add combo results) l s)
   <= length l + length s)%nat.
Proof.
  revert s. induction l as [|x l IH]; intros s; cbn [fold_left]; [simpl; lia|].
  specialize (IH (set_add x s)).
  assert (length (set_add x s) <= S (length s))%nat.
  { unfold set_add. destruct (decide (x ∈ s)); [lia|]. rewrite length_app. simpl. lia. }
  simpl. lia.
Qed.

(** X4. The result grows at its end: requesting one more template keeps
    the candidates of the earlier templates as they were, in their places,
    and appends candidates of the added template only. *)
Theorem X4_more_templates_append
    (p : option packs) (m : option multipliers) (ts : list string) (t : string)
    (cs : option constraints) :
  exists extra,
    generateCombinations p m (Some (ts ++ [t])) cs
    = generateCombinations p m (Some ts) cs ++ extra /\
    forall c, c ∈ extra -> template c = t /\ t ∈ known_templates.
Proof.
  unfold generateCombinations, raw_set. cbv zeta.
  change (default ["A+B"] (Some (ts ++ [t]))) with (ts ++ [t]).
  change (default ["A+B"] (Some ts)) with ts.
  rewrite fold_left_app. cbn [fold_left].
  set (f := applyTemplate _ _ _ _ _).
  set (before := fold_left _ ts []).
  destruct (add_all_extends (f t) before) as (new & -> & Hnew).
  exists (omap (keep_candidate cs) new). split; [apply omap_app|].
  intros c (raw & Hraw & E)%list_elem_of_omap.
  apply keep_candidate_Some in E as (-> & _). cbn [template].
  eapply applyTemplate_template. apply Hnew, Hraw.
Qed.




Lemma omap_length_le {X Y : Type} (f : X -> option Y) (l : list X) :
  (length (omap f l) <= length l)%nat.
Proof.
  induction l as [|x l IH]; [reflexivity|]. cbn [omap list_omap].
  destruct (f x); simpl; lia.
Qed.

(** X6. The result is never longer than the raw expansions of the
    requested templates taken together. *)
Theorem X6_size_bound
    (p : option packs) (m : option multipliers) (ts : option (list string))
    (cs : option constraints) :
  (length (generateCombinations p m ts cs)
   <= sum_list (map (fun t => length
         (applyTemplate (default [] (p ≫= pack_A)) (default [] (p ≫= pack_B))
            (default [] (p ≫= pack_C)) (default [] (m ≫= mult_prefixes))
            (default [] (m ≫= mult_suffixes)) t)) (default ["A+B"] ts)))%nat.
Proof.
  unfold generateCombinations. etransitivity; [apply omap_length_le|].
  unfold raw_set. cbv zeta. set (f := applyTemplate _ _ _ _ _).
  assert (G : forall l s,
            (length (fold_left (fun results template =>
               fold_left (fun results combo => set_add combo results) (f template) results)
               l s) <= sum_list (map (fun t => length (f t)) l) + length s)%nat).
  { induction l as [|t l IH]; intros s; [simpl; lia|].
    cbn [fold_left map]. etransitivity; [apply IH|].
    pose proof (add_all_length (f t) s).
    change (sum_list (length (f t) :: map (fun t => length (f t)) l))
      with (length (f t) + sum_list (map (fun t => length (f t)) l))%nat.
    lia. }
  specialize (G (default ["A+B"] ts) []). simpl in G. lia.
Qed.

(** ** Matching oracle entries to candidates *)


Lemma build_scoreMap_None (scores : list (option single_entry))
    (m0 : gmap string single_entry) :
  build_scoreMap scores m0 = None <->
  (None ∈ scores \/ exists s, Some s ∈ scores /\ se_domain s = None).
Proof.
  revert m0. induction scores as [|[e|] scores IH]; intros m0; cbn [build_scoreMap].
  - split; [discriminate|]. intros [H | (s & H & _)]; inversion H.
  - destruct (se_domain e) as [d|] eqn:Ed.
    + rewrite IH. split.
      * intros [H | (s & H & Hs)]; [left; now right | right; exists s; split; [now right|exact Hs]].
      * intros [H | (s & H & Hs)].
        -- apply elem_of_cons in H as [H|H]; [discriminate | now left].
        -- apply elem_of_cons in H as [H|H]; [|right; eauto].
           injection H as ->. congruence.
    + split; [|reflexivity]. intros _. right. exists e. split; [now left | exact Ed].
  - split; [|reflexivity]. intros _. left. now left.
Qed.

Lemma build_scoreMap_other (scores : list (option single_entry))
    (m0 m : gmap string single_entry) (k : string) :
  build_scoreMap scores m0 = Some m ->
  (forall s d, Some s ∈ scores -> se_domain s = Some d -> domain_key d <> k) ->
  m !! k = m0 !! k.
Proof.
  revert m0. induction scores as [|[e|] scores IH]; intros m0; cbn [build_scoreMap].
  - now intros [= <-].
  - destruct (se_domain e) as [d|] eqn:Ed; [|discriminate].
    intros E H. rewrite (IH _ E).
    + apply lookup_insert_ne. apply (H e d); [now left | exact Ed].
    + intros s d' Hs. apply H. now right.
  - discriminate.
Qed.

Lemma build_scoreMap_app (l1 l2 : list (option single_entry))
    (m0 m : gmap string single_entry) :
  build_scoreMap (l1 ++ l2) m0 = Some m ->
  exists m1, build_scoreMap l1 m0 = Some m1 /\ build_scoreMap l2 m1 = Some m.
Proof.
  revert m0. induction l1 as [|[e|] l1 IH]; intros m0; cbn [app build_scoreMap].
  - eauto.
  - destruct (se_domain e); [apply IH | discriminate].
  - discriminate.
Qed.

Lemma build_resultMap_None (raw : list (option multi_entry))
    (m0 : gmap string multi_entry) :
  None ∈ raw -> build_resultMap raw m0 = None.
Proof.
  revert m0. induction raw as [|[e|] raw IH]; intros m0 H; cbn [build_resultMap].
  - inversion H.
  - apply IH. apply elem_of_cons in H as [H|H]; [discriminate | exact H].
  - reflexivity.
Qed.

(** X7. One unusable element spoils the whole batch: if any element of
    the oracle's array is [null] or has no string [domain], every candidate
    of the single-persona batch gets the "Error" record, also those whose
    own entry is fine; in multi-persona mode a [null] element gives every
    candidate the empty "Scoring failed" record. *)
Theorem X7_bad_element_fails_batch :
  (forall (batch : list candidate) (scores : list (option single_entry)),
     (None ∈ scores \/ exists s, Some s ∈ scores /\ se_domain s = None) ->
     scoreSingleBatch batch (Entries scores) = map (failed_single "Error") batch) /\
  (forall (batch : list candidate) (ids : list string) (pm : gmap string preset)
          (raw : list (option multi_entry)),
     None ∈ raw ->
     scoreMultiPresetBatch batch ids pm (Entries raw)
     = map (fun c => createEmptyMultiResult c ids pm) batch).
Proof.
  split.
  - intros batch scores H. cbn [scoreSingleBatch].
    now rewrite (proj2 (build_scoreMap_None scores ∅) H).
  - intros batch ids pm raw H. unfold scoreMultiPresetBatch. cbv zeta.
    now rewrite (build_resultMap_None raw ∅ H).
Qed.

Lemma X7_witness :
  map sr_reason
    (scoreSingleBatch [paypay] (Entries [Some eleven_entry; Some empty_entry]))
  = ["Error"].
Proof.
  destruct X7_bad_element_fails_batch as [Hsingle _].
  rewrite (Hsingle [paypay] [Some eleven_entry; Some empty_entry]); [reflexivity|].
  right. exists empty_entry. split; [right; now left | reflexivity].
Defined.



(** X9. When the oracle reports the same domain more than once, the last
    report counts: an entry followed only by well-formed entries with other
    keys decides the score and bucket of the candidate whose normalized
    domain is its key. *)
Theorem X9_last_entry_wins
    (before after : list (option single_entry)) (s : single_entry) (d : string)
    (m : gmap string single_entry) (c : candidate) :
  build_scoreMap (before ++ Some s :: after) ∅ = Some m ->
  se_domain s = Some d ->
  (forall s' d', Some s' ∈ after -> se_domain s' = Some d' -> domain_key d' <> domain_key d) ->
  Str.toLowerCase (domain c) = domain_key d ->
  m !! domain_key d = Some s /\
  sr_score (scored_single m c) = clampScore (se_score s) /\
  sr_bucket (scored_single m c) = bucket_of (se_bucket s).
Proof.
  intros Hm Hd Hafter Hc.
  apply build_scoreMap_app in Hm as (m1 & _ & Hm). cbn [build_scoreMap] in Hm.
  rewrite Hd in Hm.
  assert (E : m !! domain_key d = Some s).
  { rewrite (build_scoreMap_other after _ m _ Hm Hafter). apply lookup_insert_eq. }
  split; [exact E|]. unfold scored_single. cbv zeta. cbn [sr_score sr_bucket].
  rewrite Hc, E. split; reflexivity.
Qed.

Lemma X9_witness :
  let early := SingleEntry (Some "paypay.com") (JNum (Fin 3)) (JStr "PASS") "" "" in
  exists m, build_scoreMap [Some early; Some eleven_entry] ∅ = Some m /\
            sr_score (scored_single m paypay) = clampScore (JNum (Fin 11)).
Proof.
  intros early.
  destruct (build_scoreMap [Some early; Some eleven_entry] ∅) as [m|] eqn:E;
    [|vm_compute in E; discriminate].
  exists m. split; [reflexivity|].
  apply (X9_last_entry_wins [Some early] [] eleven_entry "paypay.com" m paypay E);
    [reflexivity | intros s' d' H; inversion H | reflexivity].
Defined.

(** ** Shape of the records *)

Lemma slice0_length (n : nat) (s : string) : (String.length (Str.slice0 n s) <= n)%nat.
Proof.
  unfold Str.slice0. revert s. induction n as [|n IH]; intros [|c s]; simpl; try lia.
  specialize (IH s). lia.
Qed.

Lemma scoreSingleBatch_records (batch : list candidate) (reply : oracle_reply single_entry)
    (r : single_result) :
  r ∈ scoreSingleBatch batch reply ->
  exists c, c ∈ batch /\
    (r = failed_single "Scoring failed" c \/ r = failed_single "Error" c \/
     exists scoreMap, r = scored_single scoreMap c).
Proof.
  intros Hr.
  assert (G : forall f, r ∈ map f batch -> exists c, c ∈ batch /\ r = f c).
  { intros f H. apply list_elem_of_In, in_map_iff in H as (c & <- & Hc).
    exists c. split; [now apply list_elem_of_In | reflexivity]. }
  destruct reply as [| | | |scores]; cbn [scoreSingleBatch] in Hr;
    try (apply G in Hr as (c & Hc & ->); exists c; split; [exact Hc|]; tauto).
  destruct (build_scoreMap scores ∅) as [scoreMap|];
    apply G in Hr as (c & Hc & ->); exists c; (split; [exact Hc|]); [|tauto].
  right. right. now exists scoreMap.
Qed.

Lemma scoreMultiPresetBatch_records (batch : list candidate) (ids : list string)
    (pm : gmap string preset) (reply : oracle_reply multi_entry) (r : multi_result) :
  r ∈ scoreMultiPresetBatch batch ids pm reply ->
  exists c, c ∈ batch /\
    (r = createEmptyMultiResult c ids pm \/ exists rbp, r = processMultiResult c rbp ids pm).
Proof.
  intros Hr.
  assert (G : forall f, r ∈ map f batch -> exists c, c ∈ batch /\ r = f c).
  { intros f H. apply list_elem_of_In, in_map_iff in H as (c & <- & Hc).
    exists c. split; [now apply list_elem_of_In | reflexivity]. }
  unfold scoreMultiPresetBatch in Hr. cbv zeta in Hr.
  destruct reply as [| | | |raw];
    try (apply G in Hr as (c & Hc & ->); exists c; split; [exact Hc | now left]).
  destruct (build_resultMap raw ∅) as [resultMap|];
    apply G in Hr as (c & Hc & ->); exists c; (split; [exact Hc|]); [|now left].
  unfold scored_multi. destruct (_ ≫= _); eauto.
Qed.

Lemma best_loop_text rbp (l : list string) (st : best_state) :
  (String.length (st_bestReason st) <= 200)%nat /\
  (String.length (st_bestUseCase st) <= 50)%nat ->
  let st' := fold_left (best_step rbp) l st in
  (String.length (st_bestReason st') <= 200)%nat /\
  (String.length (st_bestUseCase st') <= 50)%nat.
Proof.
  revert st. induction l as [|pid l IH]; intros st H; [exact H|].
  cbn [fold_left]. apply IH. unfold best_step. cbv zeta.
  destruct (Num.gtb _ _); cbn; [|exact H]. split; apply slice0_length.
Qed.

(** X10. The free-text fields are bounded: in every record returned by
    [scoreSingleBatch] or [scoreMultiPresetBatch], whatever the oracle
    answered, the reason has at most 200 characters and the use case at
    most 50. *)
Theorem X10_text_fields_bounded :
  (forall (batch : list candidate) (reply : oracle_reply single_entry) (r : single_result),
     r ∈ scoreSingleBatch batch reply ->
     (String.length (sr_reason r) <= 200)%nat /\ (String.length (sr_use_case r) <= 50)%nat) /\
  (forall (batch : list candidate) (ids : list string) (pm : gmap string preset)
          (reply : oracle_reply multi_entry) (r : multi_result),
     r ∈ scoreMultiPresetBatch batch ids pm reply ->
     (String.length (mr_reason r) <= 200)%nat /\ (String.length (mr_use_case r) <= 50)%nat).
Proof.
  split.
  - intros batch reply r Hr.
    apply scoreSingleBatch_records in Hr as (c & _ & [-> | [-> | [m ->]]]);
      try (simpl; lia).
    unfold scored_single. cbv zeta. cbn [sr_reason sr_use_case].
    split; apply slice0_length.
  - intros batch ids pm reply r Hr.
    apply scoreMultiPresetBatch_records in Hr as (c & _ & [-> | [rbp ->]]);
      [simpl; lia|].
    unfold processMultiResult. cbv zeta. cbn [mr_reason mr_use_case].
    apply best_loop_text. simpl. lia.
Qed.

Lemma X10_witness :
  let r := SingleResult "paypay" 10 FAST_FLIP "Catchy" "Payments" (Some "A+B") None
             "A:pay, B:pay" in
  (String.length (sr_reason r) <= 200)%nat /\ (String.length (sr_use_case r) <= 50)%nat.
Proof.
  intros r. destruct X10_text_fields_bounded as [Hsingle _].
  apply (Hsingle [paypay] (Entries [Some eleven_entry]) r). vm_compute. constructor.
Defined.

Lemma Forall2_map_r {X Y : Type} (P : X -> Y -> Prop) (f : X -> Y) (l : list X) :
  (forall x, P x (f x)) -> Forall2 P l (map f l).
Proof. intros H. induction l; constructor; auto. Qed.

(** X11. Count integrity of a batch: whatever the oracle answers, each
    scoring function returns exactly one record per submitted candidate,
    in submission order, carrying that candidate's domain, template and
    sources. In single-persona mode the template is called [templateUsed]
    in a scored record and [template] in a failure record; in
    multi-persona mode it is always [templateUsed]. *)
Theorem X11_one_record_per_candidate :
  (forall (batch : list candidate) (reply : oracle_reply single_entry),
     Forall2 (fun c r =>
                sr_domain r = domain c /\ sr_sources r = sources c /\
                (sr_templateUsed r = Some (template c) /\ sr_template r = None \/
                 sr_templateUsed r = None /\ sr_template r = Some (template c)))
             batch (scoreSingleBatch batch reply)) /\
  (forall (batch : list candidate) (ids : list string) (pm : gmap string preset)
          (reply : oracle_reply multi_entry),
     Forall2 (fun c r =>
                mr_domain r = domain c /\ mr_templateUsed r = template c /\
                mr_sources r = sources c)
             batch (scoreMultiPresetBatch batch ids pm reply)).
Proof.
  split.
  - intros batch reply.
    destruct reply as [| | | |scores]; cbn [scoreSingleBatch];
      try (apply Forall2_map_r; intros c; cbn; tauto).
    destruct (build_scoreMap scores ∅); apply Forall2_map_r; intros c; cbn; tauto.
  - intros batch ids pm reply. unfold scoreMultiPresetBatch. cbv zeta.
    destruct reply as [| | | |raw];
      try (apply Forall2_map_r; intros c; cbn; tauto).
    destruct (build_resultMap raw ∅); apply Forall2_map_r; intros c; [|cbn; tauto].
    unfold scored_multi. destruct (_ ≫= _); cbn; tauto.
Qed.

(** ** Multi-persona records *)



Lemma best_loop_all_zero rbp (l : list string) (st : best_state) :
  (0 <= st_bestScore st)%Q ->
  Forall (fun pid => persona_score rbp pid == 0)%Q l ->
  let st' := fold_left (best_step rbp) l st in
  st_bestScore st' = st_bestScore st /\ st_bestPresetId st' = st_bestPresetId st /\
  st_bestBucket st' = st_bestBucket st /\ st_bestReason st' = st_bestReason st /\
  st_bestUseCase st' = st_bestUseCase st.
Proof.
  intros H0 Hall. revert st H0. induction Hall as [|pid l Hpid _ IH]; intros st H0.
  - repeat split.
  - cbn [fold_left].
    assert (E : best_step rbp st pid
                = BestState (st_bestScore st) (st_bestPresetId st) (st_bestBucket st)
                    (st_bestReason st) (st_bestUseCase st)
                    (<[pid := Num.round1 (persona_score rbp pid)]> (st_scoreByPreset st))
                    (st_scores st ++ [persona_score rbp pid])).
    { unfold best_step. cbv zeta. fold (persona_result rbp pid).
      fold (persona_score rbp pid).
      replace (Num.gtb (persona_score rbp pid) (st_bestScore st)) with false; [reflexivity|].
      symmetry. apply NumFacts.gtb_false. rewrite Hpid. exact H0. }
    rewrite E. destruct (IH (BestState (st_bestScore st) (st_bestPresetId st)
                               (st_bestBucket st) (st_bestReason st) (st_bestUseCase st)
                               (<[pid := Num.round1 (persona_score rbp pid)]>
                                  (st_scoreByPreset st))
                               (st_scores st ++ [persona_score rbp pid])) H0)
      as (A1 & A2 & A3 & A4 & A5).
    cbn in *. repeat split; assumption.
Qed.

Lemma sum_upper (l : list Q) (a b : Q) :
  Forall (fun x => x <= b)%Q l ->
  (fold_left Qplus l a <= a + b * inject_Z (Z.of_nat (length l)))%Q.
Proof.
  intros H. revert a. induction H as [|x l Hx _ IH]; intros a.
  - cbn [fold_left length]. change (inject_Z (Z.of_nat 0)) with 0%Q. lra.
  - cbn [fold_left]. specialize (IH (a + x)%Q).
    change (length (x :: l)) with (S (length l)).
    rewrite Nat2Z.inj_succ. unfold Z.succ. rewrite inject_Z_plus.
    change (inject_Z 1) with 1%Q. lra.
Qed.

Lemma average_le_bound (l : list Q) (b : Q) :
  (0 <= b)%Q -> Forall (fun x => x <= b)%Q l -> (average l <= b)%Q.
Proof.
  intros Hb H. destruct l as [|x l]; [exact Hb|].
  unfold average. set (n := inject_Z (Z.of_nat (length (x :: l)))).
  assert (Hn : (0 < n)%Q).
  { unfold n. change 0%Q with (inject_Z 0). rewrite <- Zlt_Qlt. simpl. lia. }
  apply Qle_shift_div_r; [exact Hn|].
  pose proof (sum_upper (x :: l) 0 b H) as Hs. fold n in Hs. lra.
Qed.

Lemma average_le_highest rbp (ids : list string) :
  (average (map (persona_score rbp) ids) <= highest rbp ids)%Q.
Proof.
  apply average_le_bound; [apply highest_nonneg|].
  apply Forall_forall. intros x Hx.
  apply list_elem_of_In, in_map_iff in Hx as (p & <- & Hp).
  apply highest_upper. now apply list_elem_of_In.
Qed.

Lemma avgScore_rounds_average c rbp (ids : list string) pm :
  avgScore (processMultiResult c rbp ids pm)
  = Num.round1 (average (map (persona_score rbp) ids)).
Proof.
  unfold processMultiResult. cbv zeta. cbn [avgScore].
  destruct (best_loop_invariant rbp ids ids) as (Hs & _). now rewrite Hs.
Qed.

(** X13. When every requested persona scores 0 (the oracle omitted them,
    or gave scores that clamp to 0), [processMultiResult] names the first
    requested persona as best, with [bestScore] and [avgScore] 0, bucket
    PASS and an empty reason and use case: the texts the oracle gave for a
    zero score are not kept. *)
Theorem X13_all_zero_personas
    (c : candidate) (rbp : gmap string preset_result) (ids : list string)
    (pm : gmap string preset) :
  (forall pid, pid ∈ ids -> (persona_score rbp pid == 0)%Q) ->
  let r := processMultiResult c rbp ids pm in
  (bestScore r == 0)%Q /\ (avgScore r == 0)%Q /\ mr_bucket r = PASS /\
  mr_reason r = "" /\ mr_use_case r = "" /\ bestPresetId r = head ids.
Proof.
  intros H r.
  assert (Hall : Forall (fun pid => persona_score rbp pid == 0)%Q ids)
    by now apply Forall_forall.
  destruct (best_loop_all_zero rbp ids (best_init ids)) as (A1 & A2 & A3 & A4 & A5);
    [discriminate | exact Hall |].
  assert (Hh : (highest rbp ids == 0)%Q).
  { rewrite <- (best_is_highest rbp ids ids), A1. reflexivity. }
  split; [|split].
  - unfold r. rewrite bestScore_rounds_highest, (NumFacts.round1_comp _ _ Hh). reflexivity.
  - unfold r. rewrite avgScore_rounds_average. apply Qle_antisym.
    + apply (Qle_trans _ (Num.round1 (highest rbp ids))).
      * apply NumFacts.round1_mono, average_le_highest.
      * rewrite (NumFacts.round1_comp _ _ Hh). discriminate.
    + apply NumFacts.round1_range, average_range.
      apply Forall_forall. intros x Hx.
      apply list_elem_of_In, in_map_iff in Hx as (p & <- & _). apply persona_score_range.
  - subst r. unfold processMultiResult. cbv zeta.
    cbn [mr_bucket mr_reason mr_use_case bestPresetId].
    rewrite A1, A2, A3, A4, A5. repeat split.
Qed.

Lemma X13_witness :
  let r := processMultiResult paypay ∅ ["lenders"; "ads"] ∅ in
  mr_bucket r = PASS /\ mr_reason r = "" /\ bestPresetId r = Some "lenders".
Proof.
  intros r.
  destruct (X13_all_zero_personas paypay ∅ ["lenders"; "ads"] ∅)
    as (_ & _ & Hb & Hr & _ & Hid); [intros pid _; reflexivity|].
  repeat split; assumption.
Defined.

Lemma finalBucket_inv (best : Q) (b : bucket) :
  (finalBucket best b = FAST_FLIP -> 7 <= best)%Q /\
  (finalBucket best b = HOLD -> 4 <= best /\ best < 8)%Q /\
  (finalBucket best b = PASS -> best < 4)%Q.
Proof.
  unfold finalBucket.
  destruct (Num.geb best 8) eqn:E8;
    [apply NumFacts.geb_spec in E8 | apply NumFacts.geb_false in E8];
  (destruct (Num.geb best 7) eqn:E7;
    [apply NumFacts.geb_spec in E7 | apply NumFacts.geb_false in E7]);
  (destruct (Num.geb best 4) eqn:E4;
    [apply NumFacts.geb_spec in E4 | apply NumFacts.geb_false in E4]);
  repeat split; intros;
    repeat match goal with
           | H : context [decide ?P] |- _ => destruct (decide P)
           end;
    first [congruence | lra].
Qed.

(** X14. The bucket and the displayed [bestScore] of a record of
    [processMultiResult] agree up to the rounding of the score: a
    FAST-FLIP record shows at least 7.0, a HOLD record between 4.0 and
    8.0, a PASS record at most 4.0; so a record showing more than 8.0 is
    FAST-FLIP and one showing less than 4.0 is PASS. *)
Theorem X14_bucket_matches_displayed_score
    (c : candidate) (rbp : gmap string preset_result) (ids : list string)
    (pm : gmap string preset) :
  let r := processMultiResult c rbp ids pm in
  (mr_bucket r = FAST_FLIP -> 7 <= bestScore r)%Q /\
  (mr_bucket r = HOLD -> 4 <= bestScore r /\ bestScore r <= 8)%Q /\
  (mr_bucket r = PASS -> bestScore r <= 4)%Q /\
  (8 < bestScore r -> mr_bucket r = FAST_FLIP)%Q /\
  (bestScore r < 4 -> mr_bucket r = PASS)%Q.
Proof.
  intros r.
  assert (Hb : (bestScore r == Num.round1 (highest rbp ids))%Q)
    by apply bestScore_rounds_highest.
  pose proof (best_is_highest rbp ids ids) as Hh.
  assert (Hbk : mr_bucket r = finalBucket (st_bestScore (fold_left (best_step rbp) ids
                                                       (best_init ids)))
                             (st_bestBucket (fold_left (best_step rbp) ids (best_init ids))))
    by reflexivity.
  destruct (finalBucket_inv (st_bestScore (fold_left (best_step rbp) ids (best_init ids)))
              (st_bestBucket (fold_left (best_step rbp) ids (best_init ids))))
    as (I1 & I2 & I3).
  rewrite <- Hbk in I1, I2, I3. rewrite Hh in I1, I2, I3.
  assert (F : mr_bucket r = FAST_FLIP -> (7 <= bestScore r)%Q).
  { intros H. rewrite Hb. apply (Qle_trans _ (Num.round1 7)); [discriminate|].
    apply NumFacts.round1_mono. auto. }
  assert (G : mr_bucket r = HOLD -> (4 <= bestScore r /\ bestScore r <= 8)%Q).
  { intros H. destruct (I2 H) as [H4 H8]. rewrite Hb. split.
    - apply (Qle_trans _ (Num.round1 4)); [discriminate|]. now apply NumFacts.round1_mono.
    - apply (Qle_trans _ (Num.round1 8)); [|discriminate].
      apply NumFacts.round1_mono. lra. }
  assert (P : mr_bucket r = PASS -> (bestScore r <= 4)%Q).
  { intros H. rewrite Hb. apply (Qle_trans _ (Num.round1 4)); [|discriminate].
    apply NumFacts.round1_mono. specialize (I3 H). lra. }
  split; [exact F|]. split; [exact G|]. split; [exact P|]. split.
  - intros H. destruct (mr_bucket r) eqn:E; [reflexivity | |].
    + destruct (G eq_refl). lra.
    + specialize (P eq_refl). lra.
  - intros H. destruct (mr_bucket r) eqn:E; [| |reflexivity].
    + specialize (F eq_refl). lra.
    + destruct (G eq_refl). lra.
Qed.


Lemma X14_witness :
  let r := processMultiResult paypay near_eight ["lenders"] ∅ in
  mr_bucket r = HOLD /\ (4 <= bestScore r /\ bestScore r <= 8)%Q.
Proof.
  intros r.
  destruct (X14_bucket_matches_displayed_score paypay near_eight ["lenders"] ∅)
    as (_ & Hhold & _).
  assert (E : mr_bucket r = HOLD) by (vm_compute; reflexivity).
  split; [exact E | exact (Hhold E)].
Defined.







(** ** Ranking, again *)

Section SortAgain.

Context {T : Type}.
Variable cmp : T -> T -> Q.
Variable R : T -> T -> Prop.
Hypothesis cmp_R : forall a b, Num.gtb (cmp a b) 0 = false <-> R a b.

Lemma Array_sort_sorted_id (l : list T) : StronglySorted R l -> Array_sort cmp l = l.
Proof.
  induction 1 as [|a l Hl IH Ha]; [reflexivity|].
  unfold Array_sort in *. cbn [foldr]. rewrite IH.
  destruct l as [|b l]; [reflexivity|]. cbn [sort_insert].
  inversion Ha as [|? ? Hab _]; subst. now rewrite (proj2 (cmp_R a b) Hab).
Qed.

Lemma Array_sort_length (l : list T) : length (Array_sort cmp l) = length l.
Proof.
  induction l as [|a l IH]; [reflexivity|]. unfold Array_sort in *. cbn [foldr].
  set (s := foldr (sort_insert cmp) [] l) in *. clearbody s. cbn [length]. rewrite <- IH.
  clear IH. induction s as [|b s IH]; [reflexivity|]. cbn [sort_insert].
  destruct (Num.gtb (cmp a b) 0); cbn [length]; [now rewrite IH | reflexivity].
Qed.

End SortAgain.

Lemma sorted_take {T : Type} (R : T -> T -> Prop) (n : nat) (l : list T) :
  StronglySorted R l -> StronglySorted R (take n l).
Proof.
  intros H. rewrite <- (take_drop n l) in H.
  now apply (sorted_app_inv R) in H as [H _].
Qed.

(** X17. Ranking is idempotent: ranking an already ranked list again,
    with the same [topK] (absent, or not negative), changes nothing. *)
Theorem X17_ranking_idempotent (topK : option Z) :
  (forall k, topK = Some k -> (0 <= k)%Z) ->
  (forall all : list single_result,
     rank_single topK (rank_single topK all) = rank_single topK all) /\
  (forall all : list multi_result,
     rank_multi topK (rank_multi topK all) = rank_multi topK all).
Proof.
  intros Hk.
  assert (Hpos : (0 <= limitedTopK topK)%Z).
  { unfold limitedTopK, MAX_TOPK. destruct topK as [k|]; [|lia].
    specialize (Hk k eq_refl). destruct (Z.eqb k 0); lia. }
  split; intros all.
  - unfold rank_single, slice_to. rewrite (proj2 (Z.ltb_ge _ 0) Hpos).
    rewrite (Array_sort_sorted_id by_score score_ge by_score_ge).
    + apply take_idemp.
    + apply sorted_take.
      apply (Array_sort_sorted by_score score_ge by_score_ge score_ge_total score_ge_trans).
  - unfold rank_multi, slice_to. rewrite (proj2 (Z.ltb_ge _ 0) Hpos).
    rewrite (Array_sort_sorted_id by_best_then_avg best_avg_ge by_best_then_avg_ge).
    + apply take_idemp.
    + apply sorted_take.
      apply (Array_sort_sorted by_best_then_avg best_avg_ge by_best_then_avg_ge
               best_avg_ge_total best_avg_ge_trans).
Qed.

Lemma X17_witness :
  rank_single (Some 2%Z) (rank_single (Some 2%Z) three_scored)
  = rank_single (Some 2%Z) three_scored.
Proof.
  apply (X17_ranking_idempotent (Some 2%Z)). intros k [= <-]. lia.
Defined.



(** ** Batching, again *)

Lemma chunk_loop_count {T : Type} (fuel : nat) (arr : list T) (size i : nat)
    (chunks : list (list T)) :
  (0 < size)%nat -> chunk_loop fuel arr size i = Some chunks ->
  length chunks = ((length arr - i + size - 1) / size)%nat.
Proof.
  intros Hsize. revert i chunks. induction fuel as [|fuel IH]; intros i chunks;
    cbn [chunk_loop]; destruct (i <? length arr)%nat eqn:Ei; try discriminate.
  - intros [= <-]. apply Nat.ltb_ge in Ei.
    replace (length arr - i + size - 1)%nat with (size - 1)%nat by lia.
    symmetry. apply Nat.div_small. lia.
  - apply Nat.ltb_lt in Ei.
    destruct (chunk_loop fuel arr size (i + size)) as [rest|] eqn:E; [|discriminate].
    intros [= <-]. cbn [length]. rewrite (IH _ _ E).
    destruct (le_lt_dec (length arr - i) size) as [Hle|Hgt].
    + replace (length arr - (i + size) + size - 1)%nat with (size - 1)%nat by lia.
      rewrite Nat.div_small by lia.
      apply (Nat.div_unique _ _ 1 (length arr - i - 1)); lia.
    + replace (length arr - i + size - 1)%nat
        with ((length arr - (i + size) + size - 1) + 1 * size)%nat by lia.
      rewrite Nat.div_add by lia. lia.
  - intros [= <-]. apply Nat.ltb_ge in Ei.
    replace (length arr - i + size - 1)%nat with (size - 1)%nat by lia.
    symmetry. apply Nat.div_small. lia.
Qed.

(** X19. The number of batches is the number of candidates divided by the
    batch size, rounded up: [n] candidates cost [ceil(n / 80)] oracle
    requests in single-persona mode and [ceil(n / 60)] in multi-persona
    mode; no candidates, no batch. *)
Theorem X19_number_of_batches {T : Type} (arr : list T) :
  (forall size chunks, (0 < size)%nat -> chunkArray arr size = Some chunks ->
     length chunks = ((length arr + size - 1) / size)%nat) /\
  (forall isMultiPreset, exists batches,
     chunkArray arr (batchSize isMultiPreset) = Some batches /\
     length batches
     = ((length arr + (if isMultiPreset then 59 else 79)) / (if isMultiPreset then 60 else 80))%nat).
Proof.
  assert (G : forall size chunks, (0 < size)%nat -> chunkArray arr size = Some chunks ->
     length chunks = ((length arr + size - 1) / size)%nat).
  { intros size chunks Hs E. unfold chunkArray in E.
    rewrite (chunk_loop_count _ _ _ _ _ Hs E). f_equal. lia. }
  split; [exact G|]. intros b.
  destruct (chunk_loop_spec (length arr) arr (batchSize b) 0) as (batches & E & _);
    [destruct b; vm_compute; lia | lia |].
  exists batches. split; [exact E|].
  rewrite (G (batchSize b) batches); [| destruct b; vm_compute; lia | exact E].
  destruct b; [change (batchSize true) with 60%nat | change (batchSize false) with 80%nat];
    f_equal; lia.
Qed.

Lemma X19_witness :
  exists chunks, chunkArray [1; 2; 3; 4; 5; 6; 7]%nat 3 = Some chunks /\ length chunks = 3%nat.
Proof.
  destruct (chunkArray [1; 2; 3; 4; 5; 6; 7]%nat 3) as [chunks|] eqn:E;
    [|vm_compute in E; discriminate].
  exists chunks. split; [reflexivity|].
  destruct (X19_number_of_batches [1; 2; 3; 4; 5; 6; 7]%nat) as [Hcount _].
  rewrite (Hcount 3%nat chunks); [reflexivity | lia | exact E].
Defined.

(** X20. [chunkArray] with size 0 does not come back on a non-empty
    array: the index never moves, so the loop is still running after any
    number of rounds. On the empty array it returns no chunk. *)
Theorem X20_zero_size_loops {T : Type} (arr : list T) :
  (arr <> [] -> forall fuel, chunk_loop fuel arr 0 0 = None) /\
  chunkArray (@nil T) 0 = Some [].
Proof.
  split; [|reflexivity]. intros Hne fuel.
  assert (Hlt : (0 <? length arr)%nat = true)
    by (apply Nat.ltb_lt; destruct arr; [contradiction | simpl; lia]).
  induction fuel as [|fuel IH]; cbn [chunk_loop]; rewrite Hlt; [reflexivity|].
  change (0 + 0)%nat with 0%nat. now rewrite IH.
Qed.

Lemma X20_witness : chunk_loop 1000 [paypay; payhub] 0 0 = None.
Proof. apply (X20_zero_size_loops [paypay; payhub]). discriminate. Defined.

(** ** The handler of the agent function *)

Lemma scoreSingleBatch_domains (batch : list candidate) (reply : oracle_reply single_entry) :
  map sr_domain (scoreSingleBatch batch reply) = map domain batch.
Proof.
  destruct reply as [| | | |scores]; cbn [scoreSingleBatch];
    try (rewrite map_map; reflexivity).
  destruct (build_scoreMap scores ∅); rewrite map_map; reflexivity.
Qed.

Lemma scoreMultiPresetBatch_domains (batch : list candidate) (ids : list string)
    (pm : gmap string preset) (reply : oracle_reply multi_entry) :
  map mr_domain (scoreMultiPresetBatch batch ids pm reply) = map domain batch.
Proof.
  unfold scoreMultiPresetBatch. cbv zeta.
  destruct reply as [| | | |raw]; try (rewrite map_map; reflexivity).
  destruct (build_resultMap raw ∅); rewrite map_map; [|reflexivity].
  apply map_ext. intros c. unfold scored_multi. now destruct (_ ≫= _).
Qed.

Lemma concat_imap_map {X Y Z' : Type} (f : nat -> list X -> list Y) (g : Y -> Z')
    (h : X -> Z') (bs : list (list X)) :
  (forall i b, map g (f i b) = map h b) ->
  map g (concat (imap f bs)) = map h (concat bs).
Proof.
  revert f. induction bs as [|b bs IH]; intros f H; [reflexivity|].
  rewrite imap_cons. cbn [concat]. rewrite !map_app, H. f_equal.
  apply IH. intros i b'. apply H.
Qed.

Lemma slice_to_take {T : Type} (k : Z) (l : list T) : exists n, slice_to k l = take n l.
Proof. unfold slice_to. destruct (Z.ltb k 0); eauto. Qed.

Lemma ranked_domains {T : Type} (cmp : T -> T -> Q) (dom : T -> string) (k : Z)
    (all : list T) :
  exists rest, Permutation (map dom all) (map dom (slice_to k (Array_sort cmp all)) ++ rest).
Proof.
  destruct (slice_to_take k (Array_sort cmp all)) as [n ->].
  exists (map dom (drop n (Array_sort cmp all))).
  rewrite <- map_app, take_drop. apply Permutation_map. symmetry. apply Array_sort_perm.
Qed.

(** What a scored response tells about the run that gave it. *)
Lemma handler_scored (m : string) (b : option agent_request) (k : string)
    (so : nat -> oracle_reply single_entry) (mo : nat -> oracle_reply multi_entry)
    (count total : nat) (mp : bool) (ids : option (list string)) (res : agent_results) :
  handler m b k so mo = Scored count total mp ids res ->
  m = "POST" /\ k <> "" /\
  exists req batches,
    b = Some req /\ req_task req = "generate_and_score" /\
    let candidates := generateCombinations (req_packs req) (req_multipliers req)
                        (req_templates req) (req_constraints req) in
    total = length candidates /\ (0 < total)%nat /\ (Z.of_nat total <= 10000)%Z /\
    mp = (0 <? length (default [] (req_presetIds req)))%nat /\
    (length (default [] (req_presetIds req)) <= 6)%nat /\
    chunkArray candidates (batchSize mp) = Some batches /\
    ((mp = false /\ ids = None /\
      res = SingleResults (rank_single (req_topK req)
              (concat (imap (fun i batch => scoreSingleBatch batch (so i)) batches)))) \/
     (mp = true /\ ids = Some (default [] (req_presetIds req)) /\
      res = MultiResults (rank_multi (req_topK req)
              (concat (imap (fun i batch =>
                               scoreMultiPresetBatch batch (default [] (req_presetIds req))
                                 (build_presetMap (req_presets req)) (mo i)) batches))))) /\
    count = length (result_domains res).
Proof.
  unfold handler.
  destruct (String.eqb_spec m "OPTIONS"); [discriminate|].
  destruct (String.eqb_spec m "POST") as [->|]; [|discriminate]. cbn [negb].
  destruct b as [req|]; [|discriminate].
  destruct (String.eqb_spec (req_task req) "generate_and_score") as [Ht|];
    [|discriminate]. cbn [negb]. cbv zeta.
  set (presetIds := default [] (req_presetIds req)).
  set (candidates := generateCombinations _ _ _ _).
  destruct ((0 <? length presetIds)%nat && _) eqn:Ecount; [discriminate|].
  destruct (Z.ltb_spec MAX_CANDIDATES (Z.of_nat (length candidates))) as [|Hmax];
    [discriminate|].
  destruct (Nat.eqb_spec (length candidates) 0) as [|Hpos]; [discriminate|].
  destruct (String.eqb_spec k "") as [|Hk]; [discriminate|].
  destruct (chunkArray candidates _) as [batches|] eqn:Ech; [|discriminate].
  assert (Hsix : (length presetIds <= 6)%nat).
  { destruct (0 <? length presetIds)%nat eqn:E0; cbn [andb] in Ecount.
    - apply orb_false_iff in Ecount as [_ H]. apply Nat.ltb_ge in H. exact H.
    - apply Nat.ltb_ge in E0. lia. }
  destruct (0 <? length presetIds)%nat eqn:Emp; intros [= <- <- <- <- <-];
    (split; [reflexivity|]); (split; [exact Hk|]); exists req, batches;
    unfold MAX_CANDIDATES in Hmax; cbn [result_domains];
    rewrite ?length_map; repeat split; try assumption; try lia;
    first [now symmetry | (right; repeat split; reflexivity)
          | (left; repeat split; reflexivity)].
Qed.

(** X21. Count integrity of a run: when [handler] answers with scored
    results, [totalGenerated] is the number of generated candidates
    (between 1 and 10000), [count] is the number of records returned, and
    the returned records carry domains of generated candidates, each
    candidate at most once: whatever the oracle answered, no record is
    invented and none is lost except by the cut to [topK], which for an
    absent or non-negative [topK] leaves [min(limitedTopK, totalGenerated)]
    records. *)
Theorem X21_handler_count_integrity
    (m : string) (b : option agent_request) (k : string)
    (so : nat -> oracle_reply single_entry) (mo : nat -> oracle_reply multi_entry)
    (count total : nat) (mp : bool) (ids : option (list string)) (res : agent_results) :
  handler m b k so mo = Scored count total mp ids res ->
  exists req,
    b = Some req /\
    let candidates := generateCombinations (req_packs req) (req_multipliers req)
                        (req_templates req) (req_constraints req) in
    total = length candidates /\ (0 < total)%nat /\ (Z.of_nat total <= 10000)%Z /\
    count = length (result_domains res) /\ (count <= total)%nat /\
    (exists rest, Permutation (map domain candidates) (result_domains res ++ rest)) /\
    ((forall n, req_topK req = Some n -> (0 <= n)%Z) ->
     count = Nat.min (Z.to_nat (limitedTopK (req_topK req))) total).
Proof.
  intros H. apply handler_scored in H
    as (_ & _ & req & batches & -> & _ & Htot & Hpos & Hmax & _ & _ & Hch & Hres & Hcount).
  exists req. split; [reflexivity|]. cbv zeta in *.
  set (candidates := generateCombinations _ _ _ _) in *.
  assert (Hcat : concat batches = candidates).
  { unfold chunkArray in Hch.
    destruct (chunk_loop_spec (length candidates) candidates (batchSize mp) 0)
      as (chunks & E & Hc & _); [destruct mp; vm_compute; lia | lia |].
    rewrite E in Hch. injection Hch as <-. exact Hc. }
  assert (Hperm : exists rest all,
            Permutation (map domain candidates) (result_domains res ++ rest) /\
            length all = length candidates /\
            exists n, result_domains res = take n all /\
                      (n = Z.to_nat (limitedTopK (req_topK req)) \/
                       (limitedTopK (req_topK req) < 0)%Z)).
  { destruct Hres as [(_ & _ & ->) | (_ & _ & ->)]; cbn [result_domains].
    - set (all := concat (imap _ batches)).
      assert (Ed : map sr_domain all = map domain candidates).
      { rewrite <- Hcat. apply concat_imap_map. intros i b'. apply scoreSingleBatch_domains. }
      destruct (ranked_domains by_score sr_domain (limitedTopK (req_topK req)) all)
        as [rest Hp].
      exists rest, (map sr_domain (Array_sort by_score all)).
      split; [now rewrite <- Ed|]. split.
      { rewrite length_map, (Array_sort_length by_score), <- (length_map sr_domain), Ed.
        apply length_map. }
      unfold rank_single, slice_to.
      destruct (Z.ltb_spec (limitedTopK (req_topK req)) 0).
      + eexists. split; [symmetry; apply firstn_map | now right].
      + eexists. split; [symmetry; apply firstn_map | now left].
    - set (all := concat (imap _ batches)).
      assert (Ed : map mr_domain all = map domain candidates).
      { rewrite <- Hcat. apply concat_imap_map. intros i b'.
        apply scoreMultiPresetBatch_domains. }
      destruct (ranked_domains by_best_then_avg mr_domain (limitedTopK (req_topK req)) all)
        as [rest Hp].
      exists rest, (map mr_domain (Array_sort by_best_then_avg all)).
      split; [now rewrite <- Ed|]. split.
      { rewrite length_map, (Array_sort_length by_best_then_avg),
          <- (length_map mr_domain), Ed. apply length_map. }
      unfold rank_multi, slice_to.
      destruct (Z.ltb_spec (limitedTopK (req_topK req)) 0).
      + eexists. split; [symmetry; apply firstn_map | now right].
      + eexists. split; [symmetry; apply firstn_map | now left]. }
  destruct Hperm as (rest & all & Hp & Hall & n & Hn & Hlim).
  split; [exact Htot|]. split; [exact Hpos|]. split; [exact Hmax|].
  split; [exact Hcount|]. split; [|split].
  - rewrite Hcount, Hn, length_take, Hall, <- Htot. lia.
  - now exists rest.
  - intros Hk. rewrite Hcount, Hn, length_take, Hall, <- Htot.
    destruct Hlim as [-> | Hneg]; [reflexivity|].
    exfalso. unfold limitedTopK, MAX_TOPK in Hneg.
    destruct (req_topK req) as [z|]; [|lia].
    specialize (Hk z eq_refl). destruct (Z.eqb z 0); lia.
Qed.

Lemma X21_witness :
  exists res, handler "POST" (Some pay_request) "key" (fun _ => Malformed) (fun _ => Malformed)
              = Scored 1 1 false None res /\
              result_domains res = ["paypay"].
Proof.
  eexists. split; [vm_compute; reflexivity|].
  destruct (X21_handler_count_integrity "POST" (Some pay_request) "key"
              (fun _ => Malformed) (fun _ => Malformed) 1 1 false None
              (SingleResults [failed_single "Error" paypay]))
    as (req & _); [vm_compute; reflexivity|].
  reflexivity.
Defined.

(** X22. Validation comes before the oracle and before the API key: every
    response other than the scored one is the same whatever the oracle
    would answer; a request that generates too many candidates, or none,
    gets its 400 or its empty 200 even when no API key is configured; and
    scored results are only given to a POST with a configured key. *)
Theorem X22_validation_first
    (m : string) (b : option agent_request) (k : string)
    (so : nat -> oracle_reply single_entry) (mo : nat -> oracle_reply multi_entry) :
  (forall so' mo',
     (forall count total mp ids res, handler m b k so mo <> Scored count total mp ids res) ->
     handler m b k so' mo' = handler m b k so mo) /\
  (forall k' n, handler m b k so mo = TooManyCandidates n ->
                handler m b k' so mo = TooManyCandidates n) /\
  (forall k' mp, handler m b k so mo = NoCandidates mp ->
                 handler m b k' so mo = NoCandidates mp) /\
  (forall count total mp ids res,
     handler m b k so mo = Scored count total mp ids res -> m = "POST" /\ k <> "").
Proof.
  split; [|split; [|split]].
  - intros so' mo' H. unfold handler in *.
    repeat (case_match; try reflexivity); exfalso; eapply H; reflexivity.
  - intros k' n. unfold handler. repeat (case_match; try congruence).
  - intros k' mp. unfold handler. repeat (case_match; try congruence).
  - intros count total mp ids res H. apply handler_scored in H. tauto.
Qed.

Lemma X22_witness :
  handler "POST" (Some pay_request) "" (fun _ => HttpFailure) (fun _ => HttpFailure)
  = handler "POST" (Some pay_request) "" (fun _ => Malformed) (fun _ => Malformed).
Proof.
  apply X22_validation_first. intros count total mp ids res. vm_compute. discriminate.
Defined.

(** X23. The persona count: [handler] refuses a request for its persona
    count exactly when it is a well-formed POST naming more than 6 persona
    ids; an empty [presetIds] array is no error but an ordinary
    single-persona request, answered as if [presetIds] were absent. *)
Theorem X23_persona_count
    (m : string) (k : string)
    (so : nat -> oracle_reply single_entry) (mo : nat -> oracle_reply multi_entry) :
  (forall b, handler m b k so mo = InvalidPresetCount <->
     m = "POST" /\
     exists req ids, b = Some req /\ req_task req = "generate_and_score" /\
                     req_presetIds req = Some ids /\ (6 < length ids)%nat) /\
  (forall req, req_presetIds req = Some [] ->
     handler m (Some req) k so mo
     = handler m (Some (AgentRequest (req_task req) (req_packs req) (req_multipliers req)
                          (req_templates req) (req_constraints req) (req_topK req) None
                          (req_presets req))) k so mo).
Proof.
  split.
  - intros b. split.
    + unfold handler.
      destruct (String.eqb_spec m "OPTIONS"); [discriminate|].
      destruct (String.eqb_spec m "POST") as [->|]; [|discriminate]. cbn [negb].
      destruct b as [req|]; [|discriminate].
      destruct (String.eqb_spec (req_task req) "generate_and_score") as [Ht|];
        [|discriminate]. cbn [negb]. cbv zeta.
      set (presetIds := default [] (req_presetIds req)).
      destruct ((0 <? length presetIds)%nat && _) eqn:E.
      * intros _. split; [reflexivity|].
        apply andb_true_iff in E as [E0 E]. apply Nat.ltb_lt in E0.
        destruct (req_presetIds req) as [ids|] eqn:Eids; [|simpl in E0; lia].
        exists req, ids. repeat split; try assumption.
        apply orb_true_iff in E as [E|E]; apply Nat.ltb_lt in E.
        -- lia.
        -- exact E.
      * repeat (case_match; try discriminate).
    + intros (-> & req & ids & -> & Ht & Hids & Hlen). unfold handler.
      cbn [String.eqb Ascii.eqb Bool.eqb andb negb]. rewrite Ht, Hids.
      cbn [String.eqb Ascii.eqb Bool.eqb andb negb default]. cbv zeta. unfold id.
      replace (0 <? length ids)%nat with true by (symmetry; apply Nat.ltb_lt; lia).
      replace (MAX_PRESETS <? length ids)%nat with true
        by (symmetry; apply Nat.ltb_lt; exact Hlen).
      now rewrite orb_true_r.
  - intros req H. unfold handler. cbn [req_task req_packs req_multipliers req_templates
      req_constraints req_topK req_presetIds req_presets]. rewrite H. reflexivity.
Qed.

Lemma X23_witness :
  handler "POST"
    (Some (AgentRequest "generate_and_score" pay_packs None None None None
             (Some ["a"; "b"; "c"; "d"; "e"; "f"; "g"]) []))
    "key" (fun _ => Malformed) (fun _ => Malformed)
  = InvalidPresetCount.
Proof.
  apply X23_persona_count. split; [reflexivity|].
  eexists _, _. repeat split; simpl; lia.
Defined.

(** ** Requests with retries *)

Section RetryFacts.

Context {B : Type}.
Variable fetch : nat -> fetch_outcome B.
Variables (retries : nat) (delay : Z).

Lemma backoff_S (n : nat) :
  backoff delay (S n) = backoff delay n ++ [(delay * (Z.of_nat n + 1))%Z].
Proof. unfold backoff. now rewrite seq_S, map_app. Qed.

(** What a run from round [i] on is like, given that the rounds before
    it failed. *)
Lemma retry_loop_spec (remaining i : nat) :
  (remaining + i = retries)%nat ->
  (forall j, (j < i)%nat -> attempt_fails (fetch j) = true) ->
  (forall last, i = S last -> retries = S last ->
     exists ok status body, fetch last = Answered ok status body) ->
  let run := retry_loop fetch retries delay remaining i
               (backoff delay (Nat.min i (retries - 1))) in
  (run_calls run <= retries)%nat /\
  run_sleeps run = backoff delay (run_calls run - 1) /\
  match run_end run with
  | Returned ok status body =>
      (ok = true \/ (status < 500)%Z) /\
      exists n, (n < retries)%nat /\ run_calls run = S n /\
                fetch n = Answered ok status body /\
                forall j, (j < n)%nat -> attempt_fails (fetch j) = true
  | Threw error =>
      run_calls run = retries /\
      (forall j, (j < retries)%nat -> attempt_fails (fetch j) = true) /\
      match retries with
      | O => error = "Max retries exceeded"
      | S last => match fetch last with
                  | Failed e => error = e
                  | Answered _ _ _ => error = "Max retries exceeded"
                  end
      end
  end.
Proof.
  revert i. induction remaining as [|rem IH]; intros i Hsum Hfail Hlast; cbn [retry_loop].
  - cbn [run_calls run_sleeps run_end]. simpl in Hsum. subst i.
    split; [lia|]. split; [f_equal; lia|]. split; [reflexivity|]. split; [exact Hfail|].
    destruct retries as [|last]; [reflexivity|].
    destruct (Hlast last eq_refl eq_refl) as (ok & st & body & ->). reflexivity.
  - assert (Hi : (i < retries)%nat) by lia.
    replace (Nat.min i (retries - 1)) with i by lia.
    destruct (fetch i) as [ok st body|e] eqn:Ef.
    + destruct (ok || (st <? 500)%Z) eqn:Eok.
      * cbn [run_calls run_sleeps run_end].
        split; [lia|]. split; [f_equal; lia|]. split.
        -- apply orb_true_iff in Eok as [->|H]; [now left | right; now apply Z.ltb_lt].
        -- exists i. repeat split; try assumption.
      * assert (Hfail' : forall j, (j < S i)%nat -> attempt_fails (fetch j) = true).
        { intros j Hj. destruct (Nat.eq_dec j i) as [->|];
            [rewrite Ef; cbn; now rewrite Eok | apply Hfail; lia]. }
        assert (Hs : (if (i <? retries - 1)%nat
                      then backoff delay i ++ [(delay * (Z.of_nat i + 1))%Z]
                      else backoff delay i)
                     = backoff delay (Nat.min (S i) (retries - 1))).
        { destruct (Nat.ltb_spec i (retries - 1)).
          - rewrite <- backoff_S. f_equal. lia.
          - f_equal. lia. }
        rewrite Hs. apply IH; [lia | exact Hfail' |].
        intros last [= <-] _. eauto.
    + destruct (Nat.eqb_spec i (retries - 1)) as [Hend|Hgo].
      * cbn [run_calls run_sleeps run_end].
        split; [lia|]. split; [f_equal; lia|]. split; [lia|]. split.
        -- intros j Hj. destruct (Nat.eq_dec j i) as [->|];
             [now rewrite Ef | apply Hfail; lia].
        -- destruct retries as [|last]; [lia|].
           replace last with i by lia. now rewrite Ef.
      * assert (Hfail' : forall j, (j < S i)%nat -> attempt_fails (fetch j) = true).
        { intros j Hj. destruct (Nat.eq_dec j i) as [->|];
            [now rewrite Ef | apply Hfail; lia]. }
        rewrite <- backoff_S.
        assert (E : backoff delay (S i) = backoff delay (Nat.min (S i) (retries - 1)))
          by (f_equal; lia).
        rewrite E. apply IH; [lia | exact Hfail' |].
        intros last [= <-] Hr. lia.
Qed.

Lemma fetchWithRetry_spec :
  let run := fetchWithRetry fetch retries delay in
  (run_calls run <= retries)%nat /\
  run_sleeps run = backoff delay (run_calls run - 1) /\
  match run_end run with
  | Returned ok status body =>
      (ok = true \/ (status < 500)%Z) /\
      exists n, (n < retries)%nat /\ run_calls run = S n /\
                fetch n = Answered ok status body /\
                forall j, (j < n)%nat -> attempt_fails (fetch j) = true
  | Threw error =>
      run_calls run = retries /\
      (forall j, (j < retries)%nat -> attempt_fails (fetch j) = true) /\
      match retries with
      | O => error = "Max retries exceeded"
      | S last => match fetch last with
                  | Failed e => error = e
                  | Answered _ _ _ => error = "Max retries exceeded"
                  end
      end
  end.
Proof.
  unfold fetchWithRetry.
  change (@nil Z) with (backoff delay (Nat.min 0 (retries - 1))).
  apply retry_loop_spec; [lia | intros j Hj; lia | intros last H; discriminate].
Qed.

End RetryFacts.

(** X24. How [fetchWithRetry] ends. It calls [fetch] at most [retries]
    times. A response it returns is [ok] or has a status below 500, and it
    is the answer of the first call that neither threw nor answered with a
    server error: a 5xx answer is never returned. It throws exactly when
    all [retries] calls failed, and then with the error of the last call
    if that call threw, and with "Max retries exceeded" if the last call
    answered 5xx or if [retries] is 0. *)
Theorem X24_retry_outcome {B : Type} (fetch : nat -> fetch_outcome B)
    (retries : nat) (delay : Z) :
  let run := fetchWithRetry fetch retries delay in
  (run_calls run <= retries)%nat /\
  (forall ok status body, run_end run = Returned ok status body ->
     (ok = true \/ (status < 500)%Z) /\
     exists n, (n < retries)%nat /\ run_calls run = S n /\
               fetch n = Answered ok status body /\
               forall j, (j < n)%nat -> attempt_fails (fetch j) = true) /\
  (forall error, run_end run = Threw error ->
     run_calls run = retries /\
     (forall j, (j < retries)%nat -> attempt_fails (fetch j) = true) /\
     match retries with
     | O => error = "Max retries exceeded"
     | S last => match fetch last with
                 | Failed e => error = e
                 | Answered _ _ _ => error = "Max retries exceeded"
                 end
     end) /\
  (forall n, (n < retries)%nat -> attempt_fails (fetch n) = false ->
     (forall j, (j < n)%nat -> attempt_fails (fetch j) = true) ->
     run_calls run = S n /\
     exists ok status body, fetch n = Answered ok status body /\
                            run_end run = Returned ok status body).
Proof.
  intros run. destruct (fetchWithRetry_spec fetch retries delay) as (Hc & _ & He).
  fold run in Hc, He. split; [exact Hc|]. split; [|split].
  - intros ok st body E. now rewrite E in He.
  - intros e E. now rewrite E in He.
  - intros n Hn Hgood Hbefore. destruct (run_end run) as [ok st body|e].
    + destruct He as (Hok & n' & Hn' & Hcalls & Hf & Hb').
      assert (Hgood' : attempt_fails (fetch n') = false).
      { rewrite Hf. cbn. destruct Hok as [->|H]; [reflexivity|].
        apply Z.ltb_lt in H. rewrite H. now rewrite orb_true_r. }
      assert (n' = n) as ->.
      { destruct (lt_eq_lt_dec n n') as [[H|H]|H]; [|now symmetry|].
        - rewrite (Hb' n H) in Hgood. discriminate.
        - rewrite (Hbefore n' H) in Hgood'. discriminate. }
      split; [exact Hcalls|]. eauto.
    + destruct He as (_ & Hall & _). rewrite (Hall n Hn) in Hgood. discriminate.
Qed.

Lemma X24_witness :
  run_calls (fetchWithRetry (fun i => if (i <? 2)%nat then Failed "ECONNRESET"
                                      else Answered true 200 "[]") 3 1000)
  = 3%nat.
Proof.
  apply (X24_retry_outcome (fun i => if (i <? 2)%nat then Failed "ECONNRESET"
                                     else Answered true 200 "[]") 3 1000 ).
  - lia.
  - reflexivity.
  - intros j Hj. destruct j as [|[|j]]; [reflexivity | reflexivity | lia].
Defined.

(** X25. The pauses of [fetchWithRetry] grow linearly: after the failed
    call number [i] (counted from 1) it waits [delay * i], and it does not
    wait after its last call, so a run of [n] calls pauses
    [delay, 2 * delay, ..., (n - 1) * delay]. With the default 3 tries
    and 1000 ms it waits at most twice, 3000 ms in all. *)
Theorem X25_retry_backoff {B : Type} (fetch : nat -> fetch_outcome B)
    (retries : nat) (delay : Z) :
  let run := fetchWithRetry fetch retries delay in
  run_sleeps run = backoff delay (run_calls run - 1) /\
  (length (run_sleeps run) <= retries - 1)%nat /\
  (retries = 3%nat -> delay = 1000%Z ->
   In (run_sleeps run) [[]; [1000%Z]; [1000%Z; 2000%Z]]).
Proof.
  intros run. destruct (fetchWithRetry_spec fetch retries delay) as (Hc & Hs & _).
  fold run in Hc, Hs. split; [exact Hs|]. split.
  - rewrite Hs. unfold backoff. rewrite length_map, length_seq. lia.
  - intros -> ->. rewrite Hs.
    destruct (run_calls run) as [|[|[|[|n]]]]; simpl; try tauto. lia.
Qed.

Lemma X25_witness :
  run_sleeps (fetchWithRetry (fun i => @Answered string false 503 "busy") 3 1000)
  = [1000%Z; 2000%Z].
Proof.
  destruct (X25_retry_backoff (fun i => @Answered string false 503 "busy") 3 1000)
    as (Hs & _).
  rewrite Hs. reflexivity.
Defined.

(** ** The two multi-persona aggregations *)




Section TextFacts.
Import Text.

Lemma no_backquote_head (c : ascii) (s : string) :
  no_backquote (String c s) = true -> c <> "`"%char /\ no_backquote s = true.
Proof.
  unfold no_backquote. cbn [Str.all_chars]. intros H.
  apply andb_true_iff in H as [H1 H2]. split; [|exact H2].
  intros ->. discriminate H1.
Qed.

Lemma fence_tag_other (c : ascii) (s : string) :
  c <> "`"%char -> fence_tag (String c s) = 0%nat.
Proof.
  intros H. unfold fence_tag. cbn [Str.startsWith].
  destruct (ascii_dec "`" c) as [E|_]; [now subst|reflexivity].
Qed.

Lemma remove_fence_tags_plain (body rest : string) :
  no_backquote body = true ->
  remove_fence_tags 0 (body +:+ rest) = body +:+ remove_fence_tags 0 rest.
Proof.
  induction body as [|c body IH]; intros H.
  - now rewrite !StrFacts.app_nil_l.
  - apply no_backquote_head in H as [Hc H].
    rewrite !StrFacts.app_cons. cbn [remove_fence_tags].
    rewrite (fence_tag_other _ _ Hc), (IH H). reflexivity.
Qed.

Lemma eqb_fence_other (c : ascii) (s : string) :
  c <> "`"%char -> String.eqb (String c s) "```" = false.
Proof.
  intros H. cbn [String.eqb].
  destruct (Ascii.eqb_spec c "`"); [contradiction|reflexivity].
Qed.

Lemma remove_last_fence_plain (body rest : string) :
  no_backquote body = true ->
  remove_last_fence (body +:+ rest) = body +:+ remove_last_fence rest.
Proof.
  induction body as [|c body IH]; intros H.
  - now rewrite !StrFacts.app_nil_l.
  - apply no_backquote_head in H as [Hc H].
    rewrite !StrFacts.app_cons. cbn [remove_last_fence].
    rewrite (eqb_fence_other _ _ Hc), (IH H). reflexivity.
Qed.

Lemma trimEnd_space (body : string) (c : ascii) :
  Num.is_space c = true -> trimEnd (body +:+ String c "") = trimEnd body.
Proof.
  intros Hc. induction body as [|d body IH].
  - rewrite StrFacts.app_nil_l. cbn [trimEnd]. rewrite Hc. reflexivity.
  - rewrite StrFacts.app_cons. cbn [trimEnd]. rewrite IH. reflexivity.
Qed.

Lemma trimEnd_keeps_head (c : ascii) (s : string) :
  Num.is_space c = false -> trimEnd (String c s) = String c (trimEnd s).
Proof. intros H. cbn [trimEnd]. rewrite H. reflexivity. Qed.

Lemma trimEnd_app_fixed (a b : string) :
  b <> "" -> trimEnd b = b -> trimEnd (a +:+ b) = a +:+ b.
Proof.
  intros Hb E. induction a as [|c a IH].
  - now rewrite StrFacts.app_nil_l.
  - rewrite StrFacts.app_cons. cbn [trimEnd]. rewrite IH.
    replace (String.eqb (a +:+ b) "") with false; [now rewrite andb_false_r|].
    destruct a, b; try reflexivity. contradiction.
Qed.

Lemma trimEnd_fenced (a b : string) :
  trimEnd (a +:+ b +:+ String "010" "```") = a +:+ b +:+ String "010" "```".
Proof.
  apply trimEnd_app_fixed.
  - destruct b; discriminate.
  - apply trimEnd_app_fixed; [discriminate|reflexivity].
Qed.

Lemma json_fence_removed (s : string) :
  remove_fence_tags 0 ("```json" +:+ String "010" s) = remove_fence_tags 0 s.
Proof. reflexivity. Qed.

Lemma bare_fence_kept (s : string) :
  remove_fence_tags 0 ("```" +:+ String "010" s)
  = "```" +:+ String "010" (remove_fence_tags 0 s).
Proof. reflexivity. Qed.

Lemma first_fence_kept (s : string) :
  remove_last_fence ("```" +:+ String "010" s)
  = "```" +:+ String "010" (remove_last_fence s).
Proof. reflexivity. Qed.

Lemma unfence_json (body : string) :
  no_backquote body = true ->
  unfence ("```json" +:+ String "010" (body +:+ String "010" "```")) = trim body.
Proof.
  intros H. unfold unfence.
  rewrite json_fence_removed, (remove_fence_tags_plain _ _ H).
  change (remove_fence_tags 0 (String "010" "```")) with (String "010" "```").
  rewrite (remove_last_fence_plain _ _ H).
  change (remove_last_fence (String "010" "```")) with (String "010" "").
  unfold trim. rewrite trimEnd_space; reflexivity.
Qed.

End TextFacts.

(** X27. A reply wrapped in a "json" code fence is unwrapped: for a body
    without backquotes, the fence line, the body, a line feed and the
    closing fence give the trimmed body, in the batch functions and in
    [parseJsonResponse] alike.  A fence without the "json" tag is not
    unwrapped: the closing fence goes, the opening one stays, so the text
    given to [JSON.parse] still starts with three backquotes.  A reply that
    does not start with a fence reaches [JSON.parse] untouched in the batch
    functions, white space included, and trimmed in [parseJsonResponse]. *)
Theorem X27_code_fence (body : string) :
  Text.no_backquote body = true ->
  let nl := String "010" "" in
  Text.batch_text ("```json" +:+ nl +:+ body +:+ nl +:+ "```") = Text.trim body /\
  Text.response_text ("```json" +:+ nl +:+ body +:+ nl +:+ "```") = Text.trim body /\
  Str.startsWith "```"
    (Text.batch_text ("```" +:+ nl +:+ body +:+ nl +:+ "```")) = true /\
  Text.batch_text body = body /\
  (Str.startsWith "```" (Text.trim body) = false ->
   Text.response_text body = Text.trim body).
Proof.
  intros H nl. unfold nl.
  change ("```json" +:+ String "010" "" +:+ body +:+ String "010" "" +:+ "```")
    with ("```json" +:+ String "010" (body +:+ String "010" "```")).
  change ("```" +:+ String "010" "" +:+ body +:+ String "010" "" +:+ "```")
    with ("```" +:+ String "010" (body +:+ String "010" "```")).
  assert (N : Str.startsWith "```" body = false).
  { destruct body as [|c body]; [reflexivity|].
    apply no_backquote_head in H as [Hc _]. cbn [Str.startsWith].
    destruct (ascii_dec "`" c); [now subst|reflexivity]. }
  split; [|split; [|split; [|split]]].
  - unfold Text.batch_text.
    change (Str.startsWith "```" ("```json" +:+ String "010" (body +:+ String "010" "```")))
      with true.
    cbv iota. now apply unfence_json.
  - unfold Text.response_text.
    assert (T : Text.trim ("```json" +:+ String "010" (body +:+ String "010" "```"))
                = "```json" +:+ String "010" (body +:+ String "010" "```")).
    { unfold Text.trim.
      change ("```json" +:+ String "010" (body +:+ String "010" "```"))
        with (("```json" +:+ String "010" "") +:+ body +:+ String "010" "```").
      rewrite trimEnd_fenced. reflexivity. }
    rewrite T.
    change (Str.startsWith "```" ("```json" +:+ String "010" (body +:+ String "010" "```")))
      with true.
    cbv iota. now apply unfence_json.
  - unfold Text.batch_text.
    change (Str.startsWith "```" ("```" +:+ String "010" (body +:+ String "010" "```")))
      with true.
    cbv iota. unfold Text.unfence.
    rewrite bare_fence_kept, (remove_fence_tags_plain _ _ H).
    change (Text.remove_fence_tags 0 (String "010" "```")) with (String "010" "```").
    rewrite first_fence_kept. unfold Text.trim.
    change ("```" +:+ String "010" (Text.remove_last_fence (body +:+ String "010" "```")))
      with (String "`" (String "`" (String "`"
              (String "010" (Text.remove_last_fence (body +:+ String "010" "```")))))).
    rewrite !trimEnd_keeps_head by reflexivity. reflexivity.
  - unfold Text.batch_text. now rewrite N.
  - intros E. unfold Text.response_text. cbv zeta. now rewrite E.
Qed.

Lemma X27_witness :
  Text.batch_text ("```json" +:+ String "010" "" +:+ "[1, 2]" +:+ String "010" "" +:+ "```")
  = "[1, 2]".
Proof.
  exact (proj1 (X27_code_fence "[1, 2]" eq_refl)).
Defined.

Section SplitFacts.
Import Text.






Lemma split_not_nil (sep : ascii) (s : string) : split sep s <> [].
Proof.
  destruct s as [|c s]; cbn [split]; [discriminate|].
  destruct (Ascii.eqb c sep); [discriminate|].
  destruct (split sep s); discriminate.
Qed.

Lemma split_no_sep (sep : ascii) (s : string) :
  Str.all_chars (fun c => negb (Ascii.eqb c sep)) s = true -> split sep s = [s].
Proof.
  induction s as [|c s IH]; cbn [split Str.all_chars]; [reflexivity|].
  intros H. apply andb_true_iff in H as [Hc H].
  apply negb_true_iff in Hc. rewrite Hc, (IH H). reflexivity.
Qed.





End SplitFacts.



Section CheckFacts.

Lemma split_app (sep : ascii) (a b : string) :
  split sep (a +:+ String sep b) = split sep a ++ split sep b.
Proof.
  induction a as [|c a IH].
  - rewrite StrFacts.app_nil_l. cbn [split]. now rewrite Ascii.eqb_refl.
  - rewrite StrFacts.app_cons. cbn [split]. rewrite IH.
    destruct (Ascii.eqb c sep); [reflexivity|].
    pose proof (split_not_nil sep a) as N.
    destruct (split sep a); [contradiction|reflexivity].
Qed.

Lemma last_app_r {A : Type} (l1 l2 : list A) (d : A) :
  l2 <> [] -> List.last (l1 ++ l2) d = List.last l2 d.
Proof.
  intros N. induction l1 as [|x l1 IH]; [reflexivity|].
  cbn [app]. cbn [List.last]. rewrite <- IH.
  destruct (l1 ++ l2) eqn:E; [|reflexivity].
  apply app_eq_nil in E as [_ E]. contradiction.
Qed.

Lemma tld_after_dot (name ext : string) :
  Str.all_chars (fun c => negb (Ascii.eqb c ".")) ext = true ->
  CheckDomain.tld_of (name +:+ String "." ext) = ext.
Proof.
  intros H. unfold CheckDomain.tld_of.
  rewrite split_app, last_app_r by apply split_not_nil.
  now rewrite (split_no_sep _ _ H).
Qed.

Lemma tld_no_dot (domain : string) :
  Str.all_chars (fun c => negb (Ascii.eqb c ".")) domain = true ->
  CheckDomain.tld_of domain = domain.
Proof.
  intros H. unfold CheckDomain.tld_of. now rewrite (split_no_sep _ _ H).
Qed.

Lemma Math_round_near (x : Q) :
  (inject_Z (Num.Math_round x) <= x + (1 # 2)
   /\ x - (1 # 2) < inject_Z (Num.Math_round x))%Q.
Proof.
  unfold Num.Math_round. split.
  - apply Qfloor_le.
  - pose proof (Qlt_floor (x + (1 # 2))) as H.
    rewrite inject_Z_plus in H. change (inject_Z 1) with 1%Q in H. lra.
Qed.

End CheckFacts.

(** X29. The mock check, with the three random draws as inputs: the domain
    is reported available exactly when the second draw is below 0.3, and a
    price is given exactly then.  The price is a whole number of cents,
    within half a cent of the base price plus the variation 2r - 1, hence
    within one unit of the base price; the base is 39.99 when the text
    after the last dot is "io", 79.99 when it is "ai", and 10.99 otherwise.
    That text is the whole domain when it has no dot, so the bare name "io"
    is priced as an "io" domain.  The method is always "mock".  Numbers are
    exact rationals. *)
Theorem X29_mock_check (domain now : string) (r_delay r_avail r_price : Q) :
  (0 <= r_price < 1)%Q ->
  let c := CheckDomain.checkMockDomain domain r_delay r_avail r_price now in
  let tld := CheckDomain.tld_of domain in
  let base := if String.eqb tld "ai" then 7999%Z
              else if String.eqb tld "io" then 3999%Z else 1099%Z in
  (CheckDomain.available c = true <-> (r_avail < 3 # 10)%Q) /\
  (CheckDomain.available c = false -> CheckDomain.price c = None) /\
  (CheckDomain.available c = true ->
   exists cents : Z,
     CheckDomain.price c = Some (inject_Z cents / 100)%Q /\
     (base - 100 <= cents <= base + 100)%Z /\
     (inject_Z base / 100 + (r_price * 2 - 1) - (1 # 200) < inject_Z cents / 100
      <= inject_Z base / 100 + (r_price * 2 - 1) + (1 # 200))%Q) /\
  CheckDomain.method c = "mock" /\
  CheckDomain.c_domain c = domain /\
  (forall name ext,
     Str.all_chars (fun ch => negb (Ascii.eqb ch ".")) ext = true ->
     CheckDomain.tld_of (name +:+ "." +:+ ext) = ext) /\
  (Str.all_chars (fun ch => negb (Ascii.eqb ch ".")) domain = true ->
   tld = domain).
Proof.
  intros [R0 R1] c tld base.
  split; [|split; [|split; [|split; [|split; [|split]]]]].
  - unfold c, CheckDomain.checkMockDomain. cbn [CheckDomain.available].
    apply NumFacts.gtb_spec.
  - unfold c, CheckDomain.checkMockDomain. cbn [CheckDomain.available CheckDomain.price].
    now intros ->.
  - unfold c, CheckDomain.checkMockDomain. cbn [CheckDomain.available CheckDomain.price].
    intros ->. fold tld.
    set (p3 := ((if String.eqb tld "ai" then 7999 # 100
                 else if String.eqb tld "io" then 3999 # 100 else 1099 # 100)
                + (r_price * 2 - 1))%Q).
    exists (Num.Math_round (p3 * 100)).
    assert (B : (p3 == inject_Z base / 100 + (r_price * 2 - 1))%Q).
    { unfold p3, base.
      destruct (String.eqb tld "ai"); [|destruct (String.eqb tld "io")];
        apply Qplus_comp; reflexivity. }
    pose proof (Math_round_near (p3 * 100)) as [N1 N2].
    split; [|split].
    + unfold p3. destruct (String.eqb tld "ai") eqn:Ea.
      * destruct (String.eqb tld "io") eqn:Ei; [|reflexivity].
        apply String.eqb_eq in Ea, Ei. congruence.
      * reflexivity.
    + assert (L : (inject_Z (base - 100) <= p3 * 100)%Q).
      { rewrite B. unfold Z.sub. rewrite inject_Z_plus.
        change (inject_Z (- (100))) with (- (100))%Q.
        generalize (inject_Z base). intros x. clear - R0 R1.
        unfold Qdiv. change (/ 100)%Q with (1 # 100)%Q. lra. }
      assert (U : (p3 * 100 <= inject_Z (base + 100))%Q).
      { rewrite B, inject_Z_plus. change (inject_Z 100) with 100%Q.
        generalize (inject_Z base). intros x. clear - R0 R1.
        unfold Qdiv. change (/ 100)%Q with (1 # 100)%Q. lra. }
      apply NumFacts.Math_round_mono in L, U.
      assert (Z : forall z : Z, Num.Math_round (inject_Z z) = z).
      { intros z. unfold Num.Math_round.
        apply Z.le_antisymm.
        - apply Z.lt_succ_r. rewrite Zlt_Qlt.
          eapply Qle_lt_trans; [apply Qfloor_le|].
          unfold Z.succ. rewrite inject_Z_plus. change (inject_Z 1) with 1%Q. lra.
        - rewrite <- (Qfloor_Z z) at 1. apply Qfloor_resp_le. lra. }
      rewrite Z in L, U. lia.
    + rewrite <- B. unfold Qdiv. change (/ 100)%Q with (1 # 100)%Q.
      revert N1 N2. generalize (inject_Z (Num.Math_round (p3 * 100))).
      clear. generalize p3. intros x y. lra.
  - reflexivity.
  - reflexivity.
  - intros name ext H. rewrite StrFacts.app_cons, StrFacts.app_nil_l.
    now apply tld_after_dot.
  - apply tld_no_dot.
Qed.

Lemma X29_witness :
  CheckDomain.price (CheckDomain.checkMockDomain "io" 0 (1 # 10) (1 # 2) "")
  <> None.
Proof.
  destruct (X29_mock_check "io" "" 0 (1 # 10) (1 # 2)) as (A & _ & P & _).
  - split; [discriminate | reflexivity].
  - destruct P as (cents & E & _); [apply A; reflexivity|].
    rewrite E. discriminate.
Defined.

(** X30. In the availability endpoint the configured API key changes
    nothing: with or without [DOMAIN_API_KEY] the answer is the same.  A
    check is answered only to a POST whose body has a non-empty string as
    [domain], and it is then the mock check of that string, so its method
    is "mock" even with a key configured.  A body that is no JSON, the body
    [null], and a [domain] that is truthy but not a string (a number, an
    array, an object, [true]) all end in the internal error answer; an
    absent or falsy [domain] in the answer that a domain is required. *)
Theorem X30_check_handler (m : string) (body : CheckDomain.parsed_body)
    (key : option string) (r_delay r_avail r_price : Q) (now : string) :
  let answer := CheckDomain.handler m body key r_delay r_avail r_price now in
  answer = CheckDomain.handler m body None r_delay r_avail r_price now /\
  (forall c, answer = CheckDomain.Checked c ->
     m = "POST" /\ CheckDomain.method c = "mock" /\
     exists d, body = CheckDomain.WithDomain (JStr d) /\ d <> "" /\
       c = CheckDomain.checkMockDomain d r_delay r_avail r_price now) /\
  (m = "POST" ->
   match body with
   | CheckDomain.BadJson | CheckDomain.NullBody =>
       answer = CheckDomain.InternalError
   | CheckDomain.WithDomain v =>
       if CheckDomain.falsy v then answer = CheckDomain.DomainRequired
       else match v with
            | JStr d =>
                answer = CheckDomain.Checked
                           (CheckDomain.checkMockDomain d r_delay r_avail r_price now)
            | _ => answer = CheckDomain.InternalError
            end
   end).
Proof.
  intros answer. unfold answer, CheckDomain.handler.
  split; [|split].
  - destruct (String.eqb m "OPTIONS"); [reflexivity|].
    destruct (negb (String.eqb m "POST")); [reflexivity|].
    destruct body as [| |v]; try reflexivity.
    destruct (CheckDomain.falsy v); [reflexivity|].
    destruct v; try reflexivity.
    destruct (negb _); reflexivity.
  - intros c.
    destruct (String.eqb_spec m "OPTIONS"); [discriminate|].
    destruct (String.eqb_spec m "POST") as [->|]; cbn [negb]; [|discriminate].
    destruct body as [| |v]; try discriminate.
    destruct (CheckDomain.falsy v) eqn:F; [discriminate|].
    destruct v as [| | | |d| |]; try discriminate.
    intros H.
    assert (E : c = CheckDomain.checkMockDomain d r_delay r_avail r_price now)
      by (destruct (negb _); congruence).
    subst c. split; [reflexivity|]. split; [reflexivity|].
    exists d. repeat split. intros ->. discriminate F.
  - intros ->. cbn [String.eqb Ascii.eqb Bool.eqb negb].
    destruct body as [| |v]; try reflexivity.
    destruct (CheckDomain.falsy v); [reflexivity|].
    destruct v; try reflexivity.
    destruct (negb _); reflexivity.
Qed.

Lemma X30_witness :
  CheckDomain.handler "POST" (CheckDomain.WithDomain (JNum (Fin 5))) (Some "key")
    0 0 0 ""
  = CheckDomain.InternalError.
Proof.
  exact (proj2 (proj2 (X30_check_handler "POST" (CheckDomain.WithDomain (JNum (Fin 5)))
                         (Some "key") 0 0 0 "")) eq_refl).
Defined.
